(** * Minesweeper knowledge base: a shallow embedding of [minesweeper.py]

    The development follows the three classes of the source file:
    [Minesweeper] (the board, used here only as the oracle giving the
    neighbour-mine counts), [Sentence] (a set of cells with a mine count)
    and [MinesweeperAI] (the knowledge base and its inference loop).

    Python sets of cells are finite sets [gset (Z * Z)]; Python integers are
    [Z]; the list [knowledge] is a [list] of sentence values, one slot per
    sentence object.  A method that assigns to [self] is a function to the
    new value of [self]; a method that returns a value is a function to the
    pair of that value and of [self] after the call. *)

From stdpp Require Import gmap list.
From Stdlib Require Import ZArith Lia.

Local Open Scope Z_scope.

(** ** Python preliminaries *)

(** A board coordinate [(row, col)]. *)
Abbreviation cell := (Z * Z)%type.

(** [range(lo, hi)]: the integers from [lo] up to [hi - 1]. *)
Definition range (lo hi : Z) : list Z := seqZ lo (hi - lo).

(** The exceptions the modelled code can raise. *)
Inductive exn : Type :=
  | ValueError
  | StopIteration.

(** Outcome of a call that may raise. *)
Inductive result (A : Type) : Type :=
  | Return (a : A)
  | Raise (e : exn).
Arguments Return {A} a.
Arguments Raise {A} e.

(** [next(iter(s))] for a set [s].  The iteration order of a Python set is
    not specified by the language; the embedding iterates a set in the order
    of [elements]. *)
Definition next_iter (s : gset cell) : result cell :=
  match elements s with
  | [] => Raise StopIteration
  | c :: _ => Return c
  end.

(** [random.sample(population, 1)[0]] for a set [population].  The draw of
    the generator is the explicit argument [rnd].  As in [random.sample], a
    sample larger than the population raises [ValueError]. *)
Definition random_sample_1 (rnd : nat) (population : gset cell) : result cell :=
  let pool := elements population in
  if decide (1 ≤ length pool)%nat
  then Return (pool !!! (rnd mod length pool)%nat)
  else Raise ValueError.

(** [itertools.permutations(l, 2)]: the pairs of elements of [l] at two
    different positions, in the order of the positions. *)
Definition permutations2 {A : Type} (l : list A) : list (A * A) :=
  i ← seq 0 (length l);
  j ← seq 0 (length l);
  if decide (i = j) then []
  else match l !! i, l !! j with
       | Some a, Some b => [(a, b)]
       | _, _ => []
       end.

(** [itertools.product(xs, ys)]. *)
Definition product {A B : Type} (xs : list A) (ys : list B) : list (A * B) :=
  x ← xs; y ← ys; [(x, y)].

(** [random.randrange(n)], the draw of the generator being [r]: an empty
    range raises [ValueError]. *)
Definition randrange (r : nat) (n : Z) : result Z :=
  if decide (0 < n) then Return (Z.of_nat r mod n) else Raise ValueError.

(** ** class Minesweeper *)

Module Minesweeper.

Record t : Type := Build
  { height : Z;
    width : Z;
    mines : gset cell;
    board : list (list bool);
    mines_found : gset cell }.

(** [self.board[i][j]], for [0 <= i] and [0 <= j]; [__init__] builds
    [height] rows of [width] entries, a missing entry reads [False]. *)
Definition board_at (self : t) (i j : Z) : bool :=
  default false (row ← board self !! Z.to_nat i; row !! Z.to_nat j).

Definition is_mine (self : t) (c : cell) : bool :=
  board_at self c.1 c.2.

Definition nearby_mines (self : t) (c : cell) : Z :=
  foldl (fun count i =>
    foldl (fun count j =>
      if decide ((i, j) = c) then count
      else if decide ((0 ≤ i ∧ i < height self) ∧ (0 ≤ j ∧ j < width self))
      then (if board_at self i j then count + 1 else count)
      else count)
    count (range (c.2 - 1) (c.2 + 2)))
  0 (range (c.1 - 1) (c.1 + 2)).

(** The field with no mines that [__init__] builds first. *)
Definition empty_board (height width : Z) : list (list bool) :=
  (λ _, (λ _, false) <$> range 0 width) <$> range 0 height.

(** [board[i][j]], for [0 <= i] and [0 <= j]. *)
Definition get (board : list (list bool)) (i j : Z) : bool :=
  default false (row ← board !! Z.to_nat i; row !! Z.to_nat j).

(** [board[i][j] = True], for [0 <= i] and [0 <= j]. *)
Definition set_true (board : list (list bool)) (i j : Z) : list (list bool) :=
  alter (λ row, <[Z.to_nat j := true]> row) (Z.to_nat i) board.

(** The loop [while len(self.mines) != mines] of [__init__]; [placed] is
    [self.mines].  Every round takes two draws of the generator; [None]
    when the draws are used up before the loop ends. *)
Fixpoint add_mines (draws : list (nat * nat)) (height width mines : Z)
    (placed : gset cell) (board : list (list bool))
    : option (result (gset cell * list (list bool))) :=
  if decide (Z.of_nat (size placed) = mines) then Some (Return (placed, board))
  else
    match draws with
    | [] => None
    | (r1, r2) :: draws =>
        match randrange r1 height with
        | Raise e => Some (Raise e)
        | Return i =>
            match randrange r2 width with
            | Raise e => Some (Raise e)
            | Return j =>
                if get board i j
                then add_mines draws height width mines placed board
                else add_mines draws height width mines
                       ({[ (i, j) ]} ∪ placed) (set_true board i j)
            end
        end
    end.

(** [Minesweeper.__init__] *)
Definition init (draws : list (nat * nat)) (height width mines : Z)
    : option (result t) :=
  match add_mines draws height width mines ∅ (empty_board height width) with
  | None => None
  | Some (Raise e) => Some (Raise e)
  | Some (Return (placed, board)) =>
      Some (Return (Build height width placed board ∅))
  end.

End Minesweeper.

(** ** class Sentence *)

Module Sentence.

Record t : Type := Build
  { cells : gset cell;
    count : Z }.

#[global] Instance t_eq_dec : EqDecision t.
Proof. solve_decision. Defined.

(** [__init__]: [set(cells)] is a fresh copy of the given set. *)
Definition init (cells : gset cell) (count : Z) : t := Build cells count.

(** [__eq__] *)
Definition eq (self other : t) : bool :=
  bool_decide (cells self = cells other) && bool_decide (count self = count other).

Definition known_mines (self : t) : gset cell * t :=
  (if decide (count self = Z.of_nat (size (cells self))) then cells self else ∅,
   self).

Definition known_safes (self : t) : gset cell * t :=
  (if decide (count self = 0) then cells self else ∅,
   self).

Definition mark_mine (c : cell) (self : t) : t :=
  if decide (c ∈ cells self)
  then {| cells := cells self ∖ {[ c ]}; count := count self - 1 |}
  else self.

Definition mark_safe (c : cell) (self : t) : t :=
  if decide (c ∈ cells self)
  then {| cells := cells self ∖ {[ c ]}; count := count self |}
  else self.

End Sentence.

(** ** class MinesweeperAI *)

Module MinesweeperAI.

Record t : Type := Build
  { height : Z;
    width : Z;
    moves_made : gset cell;
    mines : gset cell;
    safes : gset cell;
    knowledge : list Sentence.t }.

Definition init (height width : Z) : t := Build height width ∅ ∅ ∅ [].

Definition set_moves_made (f : gset cell → gset cell) (self : t) : t :=
  Build (height self) (width self) (f (moves_made self)) (mines self)
        (safes self) (knowledge self).
Definition set_mines (f : gset cell → gset cell) (self : t) : t :=
  Build (height self) (width self) (moves_made self) (f (mines self))
        (safes self) (knowledge self).
Definition set_safes (f : gset cell → gset cell) (self : t) : t :=
  Build (height self) (width self) (moves_made self) (mines self)
        (f (safes self)) (knowledge self).
Definition set_knowledge (f : list Sentence.t → list Sentence.t) (self : t) : t :=
  Build (height self) (width self) (moves_made self) (mines self)
        (safes self) (f (knowledge self)).

(** [for sentence in self.knowledge: sentence.m(...)] for a mutator [m]
    of [Sentence]: every slot of the list is updated in place. *)
Definition for_each_sentence (m : Sentence.t → Sentence.t) (self : t) : t :=
  set_knowledge (fmap m) self.

Definition mark_mine (c : cell) (self : t) : t :=
  for_each_sentence (Sentence.mark_mine c) (set_mines (union {[ c ]}) self).

Definition mark_safe (c : cell) (self : t) : t :=
  for_each_sentence (Sentence.mark_safe c) (set_safes (union {[ c ]}) self).

(** The set comprehension of step 3, less the cell itself. *)
Definition adjacent_cells (self : t) (c : cell) : gset cell :=
  list_to_set
    (i ← range (c.1 - 1) (c.1 + 1 + 1);
     j ← range (c.2 - 1) (c.2 + 1 + 1);
     if decide ((0 ≤ i ∧ i < height self) ∧ (0 ≤ j ∧ j < width self))
     then [(i, j)] else [])
  ∖ {[ c ]}.

(** The first loop of [update_knowledge]: the unions of the known mines
    and of the known safes of the listed sentences. *)
Fixpoint accumulate (sentence_list : list Sentence.t)
    (unmarked_mines unmarked_safes : gset cell) : gset cell * gset cell :=
  match sentence_list with
  | [] => (unmarked_mines, unmarked_safes)
  | sentence :: rest =>
      let '(km, sentence) := Sentence.known_mines sentence in
      let '(ks, _) := Sentence.known_safes sentence in
      accumulate rest (unmarked_mines ∪ km) (unmarked_safes ∪ ks)
  end.

(** The local function [update_knowledge].  The listed sentences are
    objects of [self.knowledge] (all of them, or the ones just appended);
    they are read before any of them is marked, so the list is passed by
    value.  Returns whether changes were made. *)
Definition update_knowledge (sentence_list : list Sentence.t) (self : t) : bool * t :=
  let '(unmarked_mines, unmarked_safes) := accumulate sentence_list ∅ ∅ in
  if decide (size unmarked_mines + size unmarked_safes = 0)%nat
  then (false, self)
  else
    let self := set_mines (fun m => m ∪ unmarked_mines) self in
    let self := set_safes (fun s => s ∪ unmarked_safes) self in
    let self := foldl (fun self mine => mark_mine mine self) self (elements unmarked_mines) in
    let self := foldl (fun self safe => mark_safe safe self) self (elements unmarked_safes) in
    (true, self).

(** The sentences of step 5, from every pair of the knowledge list. *)
Definition new_sentences (kn : list Sentence.t) : list Sentence.t :=
  '(left_, right_) ← permutations2 kn;
  if decide (Sentence.cells left_ ⊂ Sentence.cells right_)
  then [Sentence.init (Sentence.cells right_ ∖ Sentence.cells left_)
                      (Sentence.count right_ - Sentence.count left_)]
  else [].

(** The [while True] loop of [add_knowledge]; [None] when the fuel is
    used up before a [break]. *)
Fixpoint inference_loop (fuel : nat) (self : t) : option t :=
  match fuel with
  | O => None
  | S fuel =>
      let '(is_changes_made, self) := update_knowledge (knowledge self) self in
      if negb is_changes_made then Some self
      else
        let new := new_sentences (knowledge self) in
        let self := set_knowledge (fun kn => kn ++ new) self in
        let '(is_changes_made, self) := update_knowledge new self in
        if negb is_changes_made then Some self
        else inference_loop fuel self
  end.

(** Steps 1 to 3 of [add_knowledge], up to the appended sentence. *)
Definition add_sentence (c : cell) (count : Z) (self : t) : t :=
  let self := set_moves_made (union {[ c ]}) self in
  let self := set_safes (union {[ c ]}) self in
  let self := for_each_sentence (Sentence.mark_safe c) self in
  let unclicked_adjacent_cells := adjacent_cells self c ∖ moves_made self in
  set_knowledge (fun kn => kn ++ [Sentence.init unclicked_adjacent_cells count]) self.

Definition add_knowledge (fuel : nat) (c : cell) (count : Z) (self : t) : option t :=
  inference_loop fuel (add_sentence c count self).

Definition make_safe_move (self : t) : result (option cell) * t :=
  let possible_set := safes self ∖ moves_made self in
  (if decide (0 < size possible_set)%nat
   then match next_iter possible_set with
        | Return c => Return (Some c)
        | Raise e => Raise e
        end
   else Return None,
   self).

Definition make_random_move (rnd : nat) (self : t) : result cell * t :=
  let possible_set :=
    list_to_set (product (range 0 (height self)) (range 0 (width self)))
    ∖ moves_made self ∖ mines self in
  (random_sample_1 rnd possible_set, self).

End MinesweeperAI.

(** ** Notions used by the statements *)

(** The cells that occur in some sentence of a knowledge list: the cells
    whose status is still undetermined in the inference loop. *)
Definition all_cells (kn : list Sentence.t) : gset cell :=
  ⋃ (Sentence.cells <$> kn).

(** The two marking loops of [update_knowledge], on one sentence: the
    listed cells marked one after the other. *)
Definition strike_mines (cs : list cell) (s : Sentence.t) : Sentence.t :=
  foldl (λ s mine, Sentence.mark_mine mine s) s cs.
Definition strike_safes (cs : list cell) (s : Sentence.t) : Sentence.t :=
  foldl (λ s safe, Sentence.mark_safe safe s) s cs.

(** The number of mines of the board among the cells of a set. *)
Definition mine_count (g : Minesweeper.t) (X : gset cell) : Z :=
  Z.of_nat (size (filter (λ c, Minesweeper.is_mine g c = true) X)).

(** A sentence is sound on a board when its count is the number of mines
    among its cells. *)
Definition sound (g : Minesweeper.t) (s : Sentence.t) : Prop :=
  Sentence.count s = mine_count g (Sentence.cells s).

(** A knowledge base agrees with a board. *)
Record consistent (g : Minesweeper.t) (self : MinesweeperAI.t) : Prop :=
  { consistent_height : MinesweeperAI.height self = Minesweeper.height g;
    consistent_width : MinesweeperAI.width self = Minesweeper.width g;
    consistent_mines :
      ∀ c, c ∈ MinesweeperAI.mines self → Minesweeper.is_mine g c = true;
    consistent_safes :
      ∀ c, c ∈ MinesweeperAI.safes self → Minesweeper.is_mine g c = false;
    consistent_moves :
      ∀ c, c ∈ MinesweeperAI.moves_made self → Minesweeper.is_mine g c = false;
    consistent_knowledge : Forall (sound g) (MinesweeperAI.knowledge self) }.

(** A board as [__init__] builds it: [height] rows of [width] entries. *)
Definition well_formed (g : Minesweeper.t) : Prop :=
  Z.of_nat (length (Minesweeper.board g)) = Minesweeper.height g ∧
  Forall (λ row, Z.of_nat (length row) = Minesweeper.width g) (Minesweeper.board g).

(** What [add_knowledge] is told about a cell: the cell is on the board,
    was not revealed before, is not a mine, and the count is the one the
    board gives for it. *)
Definition contract (g : Minesweeper.t) (self : MinesweeperAI.t)
    (c : cell) (count : Z) : Prop :=
  ((0 ≤ c.1 ∧ c.1 < Minesweeper.height g) ∧ (0 ≤ c.2 ∧ c.2 < Minesweeper.width g)) ∧
  (c ∉ MinesweeperAI.moves_made self) ∧
  Minesweeper.is_mine g c = false ∧
  count = Minesweeper.nearby_mines g c.

(** The neighbours of a cell that [nearby_mines] counts. *)
Definition counted (g : Minesweeper.t) (c x : cell) : Prop :=
  x ≠ c ∧
  ((0 ≤ x.1 ∧ x.1 < Minesweeper.height g) ∧ (0 ≤ x.2 ∧ x.2 < Minesweeper.width g)) ∧
  Minesweeper.is_mine g x = true.

#[global] Instance counted_dec (g : Minesweeper.t) (c x : cell) : Decision (counted g c x).
Proof. unfold counted. apply _. Defined.

(** The successive states of a knowledge base during a game on the board
    [g], the latest first: the fresh knowledge base, then the state each
    call of [add_knowledge] returned, every call within the contract. *)
Inductive game (g : Minesweeper.t) : list MinesweeperAI.t → Prop :=
  | game_start :
      well_formed g →
      game g [MinesweeperAI.init (Minesweeper.height g) (Minesweeper.width g)]
  | game_reveal self past c count fuel self' :
      game g (self :: past) →
      contract g self c count →
      MinesweeperAI.add_knowledge fuel c count self = Some self' →
      game g (self' :: self :: past).

(** The known mines, and the known safes, of the sentences of a list. *)
Definition collected_mines (l : list Sentence.t) : gset cell :=
  ⋃ ((λ s, (Sentence.known_mines s).1) <$> l).
Definition collected_safes (l : list Sentence.t) : gset cell :=
  ⋃ ((λ s, (Sentence.known_safes s).1) <$> l).

(** A sentence after the cells of [um] were marked as mines and those of
    [us] as safe. *)
Definition struck (um us : gset cell) (s : Sentence.t) : Sentence.t :=
  Sentence.Build (Sentence.cells s ∖ um ∖ us)
                 (Sentence.count s - Z.of_nat (size (Sentence.cells s ∩ um))).

(** The sentences of [kn] are all kept in [kn'], in their places, each with
    no cells but cells it had. *)
Definition kept (kn kn' : list Sentence.t) : Prop :=
  ∃ front back,
    kn' = front ++ back ∧
    Forall2 (λ s s', Sentence.cells s' ⊆ Sentence.cells s) kn front.

(** The sentences of a knowledge base are over cells of its board. *)
Definition on_board (self : MinesweeperAI.t) : Prop :=
  ∀ x, x ∈ all_cells (MinesweeperAI.knowledge self) →
       (0 ≤ x.1 ∧ x.1 < MinesweeperAI.height self) ∧
       (0 ≤ x.2 ∧ x.2 < MinesweeperAI.width self).

(** What [add_mines] keeps true of the set of mines and the field: the
    field has [height] rows of [width] entries, an entry is [True] exactly
    when its cell is in the set, and the set holds cells of the board. *)
Record placed_on (height width : Z) (placed : gset cell)
    (board : list (list bool)) : Prop :=
  { placed_rows : length board = Z.to_nat height;
    placed_columns : Forall (λ row, length row = Z.to_nat width) board;
    placed_entries :
      ∀ i j, (0 ≤ i ∧ i < height) → (0 ≤ j ∧ j < width) →
             Minesweeper.get board i j = true ↔ (i, j) ∈ placed;
    placed_cells :
      ∀ c, c ∈ placed → (0 ≤ c.1 ∧ c.1 < height) ∧ (0 ≤ c.2 ∧ c.2 < width) }.

(** * Properties of class Sentence *)

Section sentence_facts.
Implicit Types (s : Sentence.t) (c : cell).

Lemma sentence_mark_mine_in s c :
  c ∈ Sentence.cells s →
  Sentence.mark_mine c s
  = Sentence.Build (Sentence.cells s ∖ {[ c ]}) (Sentence.count s - 1).
Proof. intros Hc. unfold Sentence.mark_mine. by rewrite decide_True. Qed.

Lemma sentence_mark_mine_notin s c :
  c ∉ Sentence.cells s → Sentence.mark_mine c s = s.
Proof. intros Hc. unfold Sentence.mark_mine. by rewrite decide_False. Qed.

Lemma sentence_mark_safe_in s c :
  c ∈ Sentence.cells s →
  Sentence.mark_safe c s
  = Sentence.Build (Sentence.cells s ∖ {[ c ]}) (Sentence.count s).
Proof. intros Hc. unfold Sentence.mark_safe. by rewrite decide_True. Qed.

Lemma sentence_mark_safe_notin s c :
  c ∉ Sentence.cells s → Sentence.mark_safe c s = s.
Proof. intros Hc. unfold Sentence.mark_safe. by rewrite decide_False. Qed.

Lemma sentence_mark_mine_cells s c :
  Sentence.cells (Sentence.mark_mine c s) = Sentence.cells s ∖ {[ c ]}.
Proof.
  unfold Sentence.mark_mine. case_decide; simpl; [done|].
  apply set_eq. set_solver.
Qed.

Lemma sentence_mark_safe_cells s c :
  Sentence.cells (Sentence.mark_safe c s) = Sentence.cells s ∖ {[ c ]}.
Proof.
  unfold Sentence.mark_safe. case_decide; simpl; [done|].
  apply set_eq. set_solver.
Qed.

Lemma sentence_mark_mine_idemp s c :
  Sentence.mark_mine c (Sentence.mark_mine c s) = Sentence.mark_mine c s.
Proof.
  apply sentence_mark_mine_notin. rewrite sentence_mark_mine_cells. set_solver.
Qed.

Lemma sentence_mark_safe_idemp s c :
  Sentence.mark_safe c (Sentence.mark_safe c s) = Sentence.mark_safe c s.
Proof.
  apply sentence_mark_safe_notin. rewrite sentence_mark_safe_cells. set_solver.
Qed.

End sentence_facts.

(** C4. [known_mines] returns the cells of the sentence when its count is
    the number of its cells and the empty set otherwise; [known_safes]
    returns the cells when the count is 0 and the empty set otherwise; after
    either call the sentence is the one it was before. *)
Theorem known_mines_known_safes_spec (s : Sentence.t) :
  (Sentence.count s = Z.of_nat (size (Sentence.cells s)) →
     (Sentence.known_mines s).1 = Sentence.cells s) ∧
  (Sentence.count s ≠ Z.of_nat (size (Sentence.cells s)) →
     (Sentence.known_mines s).1 = ∅) ∧
  (Sentence.count s = 0 → (Sentence.known_safes s).1 = Sentence.cells s) ∧
  (Sentence.count s ≠ 0 → (Sentence.known_safes s).1 = ∅) ∧
  (Sentence.known_mines s).2 = s ∧
  (Sentence.known_safes s).2 = s.
Proof.
  unfold Sentence.known_mines, Sentence.known_safes; simpl.
  repeat split; intros; case_decide; congruence.
Qed.

(** C5. On a sentence that contains the cell, [mark_mine] removes the cell
    and takes 1 from the count, and [mark_safe] removes the cell and keeps
    the count; on a sentence that does not contain it, both leave the
    sentence as it is. *)
Theorem sentence_mark_spec (s : Sentence.t) (c : cell) :
  (c ∈ Sentence.cells s →
     Sentence.cells (Sentence.mark_mine c s) = Sentence.cells s ∖ {[ c ]} ∧
     (c ∉ Sentence.cells (Sentence.mark_mine c s)) ∧
     Sentence.count (Sentence.mark_mine c s) = Sentence.count s - 1 ∧
     Sentence.cells (Sentence.mark_safe c s) = Sentence.cells s ∖ {[ c ]} ∧
     (c ∉ Sentence.cells (Sentence.mark_safe c s)) ∧
     Sentence.count (Sentence.mark_safe c s) = Sentence.count s) ∧
  (c ∉ Sentence.cells s →
     Sentence.mark_mine c s = s ∧ Sentence.mark_safe c s = s).
Proof.
  split; intros Hc.
  - rewrite sentence_mark_mine_in, sentence_mark_safe_in by done. simpl.
    repeat split; set_solver.
  - by rewrite sentence_mark_mine_notin, sentence_mark_safe_notin.
Qed.

(** * Properties of the mutators of class MinesweeperAI *)

Section ai_mark_facts.
Implicit Types (self : MinesweeperAI.t) (c : cell).

Lemma ai_mark_mine_idemp self c :
  MinesweeperAI.mark_mine c (MinesweeperAI.mark_mine c self)
  = MinesweeperAI.mark_mine c self.
Proof.
  destruct self as [h w mv mi sa kn].
  unfold MinesweeperAI.mark_mine, MinesweeperAI.for_each_sentence,
    MinesweeperAI.set_knowledge, MinesweeperAI.set_mines; simpl.
  f_equal.
  - apply set_eq. set_solver.
  - rewrite <- list_fmap_compose. apply list_fmap_ext.
    intros _ s _. apply sentence_mark_mine_idemp.
Qed.

Lemma ai_mark_safe_idemp self c :
  MinesweeperAI.mark_safe c (MinesweeperAI.mark_safe c self)
  = MinesweeperAI.mark_safe c self.
Proof.
  destruct self as [h w mv mi sa kn].
  unfold MinesweeperAI.mark_safe, MinesweeperAI.for_each_sentence,
    MinesweeperAI.set_knowledge, MinesweeperAI.set_safes; simpl.
  f_equal.
  - apply set_eq. set_solver.
  - rewrite <- list_fmap_compose. apply list_fmap_ext.
    intros _ s _. apply sentence_mark_safe_idemp.
Qed.

End ai_mark_facts.

(** C6. [mark_mine] and [mark_safe] are idempotent, on a sentence and on
    the knowledge base: marking the same cell a second time gives the state
    the first marking gave. *)
Theorem mark_idempotent (s : Sentence.t) (self : MinesweeperAI.t) (c : cell) :
  Sentence.mark_mine c (Sentence.mark_mine c s) = Sentence.mark_mine c s ∧
  Sentence.mark_safe c (Sentence.mark_safe c s) = Sentence.mark_safe c s ∧
  MinesweeperAI.mark_mine c (MinesweeperAI.mark_mine c self)
    = MinesweeperAI.mark_mine c self ∧
  MinesweeperAI.mark_safe c (MinesweeperAI.mark_safe c self)
    = MinesweeperAI.mark_safe c self.
Proof.
  split_and!.
  - apply sentence_mark_mine_idemp.
  - apply sentence_mark_safe_idemp.
  - apply ai_mark_mine_idemp.
  - apply ai_mark_safe_idemp.
Qed.

(** * The inference loop *)

Section update_facts.
Implicit Types (self : MinesweeperAI.t) (s : Sentence.t) (c : cell).
Implicit Types (l kn : list Sentence.t) (cs : list cell) (um us : gset cell).

Lemma known_mines_subseteq s : (Sentence.known_mines s).1 ⊆ Sentence.cells s.
Proof. unfold Sentence.known_mines; simpl. case_decide; set_solver. Qed.

Lemma known_safes_subseteq s : (Sentence.known_safes s).1 ⊆ Sentence.cells s.
Proof. unfold Sentence.known_safes; simpl. case_decide; set_solver. Qed.

Lemma accumulate_cons s l um us :
  MinesweeperAI.accumulate (s :: l) um us
  = MinesweeperAI.accumulate l (um ∪ (Sentence.known_mines s).1)
                               (us ∪ (Sentence.known_safes s).1).
Proof. reflexivity. Qed.

Lemma elem_of_accumulate_mines l um us c :
  c ∈ (MinesweeperAI.accumulate l um us).1 ↔
  c ∈ um ∨ ∃ s, s ∈ l ∧ c ∈ (Sentence.known_mines s).1.
Proof.
  revert um us. induction l as [|s l IH]; intros um us.
  - simpl. split; [by left|]. intros [?|(s & Hs & _)]; [done|]. by inversion Hs.
  - rewrite accumulate_cons, IH, elem_of_union. split.
    + intros [[?|?]|(s' & ? & ?)]; [by left| |].
      * right. exists s. split; [left|done].
      * right. exists s'. split; [by right|done].
    + intros [?|(s' & Hs' & ?)]; [by left; left|].
      apply elem_of_cons in Hs' as [->|?]; [by left; right|].
      right. by exists s'.
Qed.

Lemma elem_of_accumulate_safes l um us c :
  c ∈ (MinesweeperAI.accumulate l um us).2 ↔
  c ∈ us ∨ ∃ s, s ∈ l ∧ c ∈ (Sentence.known_safes s).1.
Proof.
  revert um us. induction l as [|s l IH]; intros um us.
  - simpl. split; [by left|]. intros [?|(s & Hs & _)]; [done|]. by inversion Hs.
  - rewrite accumulate_cons, IH, elem_of_union. split.
    + intros [[?|?]|(s' & ? & ?)]; [by left| |].
      * right. exists s. split; [left|done].
      * right. exists s'. split; [by right|done].
    + intros [?|(s' & Hs' & ?)]; [by left; left|].
      apply elem_of_cons in Hs' as [->|?]; [by left; right|].
      right. by exists s'.
Qed.

Lemma elem_of_all_cells kn c :
  c ∈ all_cells kn ↔ ∃ s, s ∈ kn ∧ c ∈ Sentence.cells s.
Proof.
  unfold all_cells. rewrite elem_of_union_list. split.
  - intros (X & HX & Hc). apply list_elem_of_fmap in HX as (s & -> & Hs). eauto.
  - intros (s & Hs & Hc). exists (Sentence.cells s). split; [|done].
    by apply list_elem_of_fmap_2.
Qed.

(** What [update_knowledge] collects lies in the cells of the scanned
    sentences. *)
Lemma accumulate_subseteq l c :
  c ∈ (MinesweeperAI.accumulate l ∅ ∅).1 ∪ (MinesweeperAI.accumulate l ∅ ∅).2 →
  c ∈ all_cells l.
Proof.
  rewrite elem_of_union, elem_of_accumulate_mines, elem_of_accumulate_safes,
    elem_of_all_cells.
  intros [[?|(s & Hs & Hc)]|[?|(s & Hs & Hc)]]; [set_solver| |set_solver|].
  - exists s. split; [done|]. by apply known_mines_subseteq.
  - exists s. split; [done|]. by apply known_safes_subseteq.
Qed.

Lemma strike_mines_cells cs s :
  Sentence.cells (strike_mines cs s) = Sentence.cells s ∖ list_to_set cs.
Proof.
  revert s. induction cs as [|c cs IH]; intros s; simpl.
  - apply set_eq. set_solver.
  - unfold strike_mines in *; simpl. rewrite IH, sentence_mark_mine_cells.
    apply set_eq. set_solver.
Qed.

Lemma strike_safes_cells cs s :
  Sentence.cells (strike_safes cs s) = Sentence.cells s ∖ list_to_set cs.
Proof.
  revert s. induction cs as [|c cs IH]; intros s; simpl.
  - apply set_eq. set_solver.
  - unfold strike_safes in *; simpl. rewrite IH, sentence_mark_safe_cells.
    apply set_eq. set_solver.
Qed.

Lemma foldl_mark_mine cs self :
  foldl (λ self mine, MinesweeperAI.mark_mine mine self) self cs
  = MinesweeperAI.Build (MinesweeperAI.height self) (MinesweeperAI.width self)
      (MinesweeperAI.moves_made self)
      (list_to_set cs ∪ MinesweeperAI.mines self)
      (MinesweeperAI.safes self)
      (strike_mines cs <$> MinesweeperAI.knowledge self).
Proof.
  revert self. induction cs as [|c cs IH]; intros [h w mv mi sa kn]; simpl.
  - f_equal; [apply set_eq; set_solver|]. symmetry. apply list_fmap_id.
  - rewrite IH; simpl. f_equal; [apply set_eq; set_solver|].
    by rewrite <- list_fmap_compose.
Qed.

Lemma foldl_mark_safe cs self :
  foldl (λ self safe, MinesweeperAI.mark_safe safe self) self cs
  = MinesweeperAI.Build (MinesweeperAI.height self) (MinesweeperAI.width self)
      (MinesweeperAI.moves_made self)
      (MinesweeperAI.mines self)
      (list_to_set cs ∪ MinesweeperAI.safes self)
      (strike_safes cs <$> MinesweeperAI.knowledge self).
Proof.
  revert self. induction cs as [|c cs IH]; intros [h w mv mi sa kn]; simpl.
  - f_equal; [apply set_eq; set_solver|]. symmetry. apply list_fmap_id.
  - rewrite IH; simpl. f_equal; [apply set_eq; set_solver|].
    by rewrite <- list_fmap_compose.
Qed.

(** [update_knowledge], with the collected sets named. *)
Lemma update_knowledge_eq l self :
  let um := (MinesweeperAI.accumulate l ∅ ∅).1 in
  let us := (MinesweeperAI.accumulate l ∅ ∅).2 in
  MinesweeperAI.update_knowledge l self
  = if decide (size um + size us = 0)%nat then (false, self)
    else (true,
          MinesweeperAI.Build (MinesweeperAI.height self) (MinesweeperAI.width self)
            (MinesweeperAI.moves_made self)
            (um ∪ MinesweeperAI.mines self)
            (us ∪ MinesweeperAI.safes self)
            (strike_safes (elements us) <$>
               (strike_mines (elements um) <$> MinesweeperAI.knowledge self))).
Proof.
  unfold MinesweeperAI.update_knowledge.
  destruct (MinesweeperAI.accumulate l ∅ ∅) as [um us]; simpl.
  case_decide; [done|]. f_equal.
  rewrite foldl_mark_safe, foldl_mark_mine; simpl.
  rewrite !list_to_set_elements_L.
  f_equal; apply set_eq; set_solver.
Qed.

Lemma update_knowledge_false l self self' :
  MinesweeperAI.update_knowledge l self = (false, self') → self' = self.
Proof. rewrite update_knowledge_eq. simpl. case_decide; congruence. Qed.

(** A pass that makes changes removes a cell from every sentence: fewer
    cells are left undetermined in the knowledge. *)
Lemma update_knowledge_true l self self' :
  (∀ s, s ∈ l → s ∈ MinesweeperAI.knowledge self) →
  MinesweeperAI.update_knowledge l self = (true, self') →
  (size (all_cells (MinesweeperAI.knowledge self'))
   < size (all_cells (MinesweeperAI.knowledge self)))%nat.
Proof.
  intros Hl. rewrite update_knowledge_eq. simpl.
  set (um := (MinesweeperAI.accumulate l ∅ ∅).1).
  set (us := (MinesweeperAI.accumulate l ∅ ∅).2).
  case_decide as Hsz; [done|]. intros [= <-]. simpl.
  assert (∃ c, c ∈ um ∪ us) as [c Hc].
  { destruct (decide (size um = 0%nat)) as [Hm|Hm].
    - assert (size us ≠ 0%nat) as Hs by lia.
      apply size_non_empty_iff, set_choose in Hs as [c ?]. exists c. set_solver.
    - apply size_non_empty_iff, set_choose in Hm as [c ?]. exists c. set_solver. }
  apply subset_size. split.
  - intros x. rewrite !elem_of_all_cells. intros (s & Hs & Hx).
    apply list_elem_of_fmap in Hs as (s1 & -> & Hs).
    apply list_elem_of_fmap in Hs as (s0 & -> & Hs).
    rewrite strike_safes_cells, strike_mines_cells in Hx.
    exists s0. split; [done|]. set_solver.
  - intros Hsub.
    assert (c ∈ all_cells (MinesweeperAI.knowledge self)) as Hin.
    { apply accumulate_subseteq in Hc.
      apply elem_of_all_cells in Hc as (s & Hs & Hc).
      apply elem_of_all_cells. exists s. auto. }
    apply Hsub, elem_of_all_cells in Hin as (s & Hs & Hx).
    apply list_elem_of_fmap in Hs as (s1 & -> & Hs).
    apply list_elem_of_fmap in Hs as (s0 & -> & Hs).
    rewrite strike_safes_cells, strike_mines_cells in Hx.
    rewrite !elem_of_difference, !elem_of_list_to_set, !elem_of_elements in Hx.
    set_solver.
Qed.

End update_facts.

Section loop_facts.
Implicit Types (self : MinesweeperAI.t) (s : Sentence.t) (c : cell).
Implicit Types (l kn : list Sentence.t).

Lemma elem_of_permutations2 {A} (l : list A) (a b : A) :
  (a, b) ∈ permutations2 l → a ∈ l ∧ b ∈ l.
Proof.
  unfold permutations2.
  intros (i & Hab & _)%list_elem_of_bind.
  apply list_elem_of_bind in Hab as (j & Hab & _).
  case_decide; [by apply elem_of_nil in Hab|].
  destruct (l !! i) as [a'|] eqn:Hi; [|by apply elem_of_nil in Hab].
  destruct (l !! j) as [b'|] eqn:Hj; [|by apply elem_of_nil in Hab].
  apply list_elem_of_singleton in Hab as [= -> ->].
  split; eapply list_elem_of_lookup_2; eauto.
Qed.

(** Every sentence of step 5 is the difference of two sentences of the
    knowledge, the cells of the first strictly inside those of the second. *)
Lemma elem_of_new_sentences kn s :
  s ∈ MinesweeperAI.new_sentences kn →
  ∃ A B, A ∈ kn ∧ B ∈ kn ∧ Sentence.cells A ⊂ Sentence.cells B ∧
         s = Sentence.Build (Sentence.cells B ∖ Sentence.cells A)
                            (Sentence.count B - Sentence.count A).
Proof.
  unfold MinesweeperAI.new_sentences.
  intros ([A B] & Hs & HAB)%list_elem_of_bind.
  apply elem_of_permutations2 in HAB as [HA HB].
  case_decide; [|by apply elem_of_nil in Hs].
  apply list_elem_of_singleton in Hs as ->.
  by exists A, B.
Qed.

Lemma all_cells_new_sentences kn :
  all_cells (kn ++ MinesweeperAI.new_sentences kn) = all_cells kn.
Proof.
  apply set_eq. intros c. rewrite !elem_of_all_cells. split.
  - intros (s & [Hs|Hs]%elem_of_app & Hc); [eauto|].
    apply elem_of_new_sentences in Hs as (A & B & _ & HB & _ & ->).
    exists B. split; [done|]. simpl in Hc. set_solver.
  - intros (s & Hs & Hc). exists s. split; [|done]. apply elem_of_app. by left.
Qed.

(** The loop breaks once the fuel exceeds the number of cells left in the
    sentences. *)
Lemma inference_loop_terminates fuel self :
  (size (all_cells (MinesweeperAI.knowledge self)) < fuel)%nat →
  ∃ self', MinesweeperAI.inference_loop fuel self = Some self'.
Proof.
  revert self. induction fuel as [|fuel IH]; intros self Hfuel; [lia|].
  simpl.
  destruct (MinesweeperAI.update_knowledge (MinesweeperAI.knowledge self) self)
    as [[] self1] eqn:E1; simpl; [|eauto].
  apply update_knowledge_true in E1; [|done].
  set (new := MinesweeperAI.new_sentences (MinesweeperAI.knowledge self1)).
  destruct (MinesweeperAI.update_knowledge new
              (MinesweeperAI.set_knowledge (λ kn, kn ++ new) self1))
    as [[] self3] eqn:E3; simpl; [|eauto].
  apply update_knowledge_true in E3.
  - apply IH. simpl in E3. unfold new in E3.
    rewrite all_cells_new_sentences in E3. lia.
  - intros s Hs. simpl. apply elem_of_app. by right.
Qed.

(** More fuel does not change the state a terminating run returns. *)
Lemma inference_loop_fuel_mono fuel fuel' self self' :
  (fuel ≤ fuel')%nat →
  MinesweeperAI.inference_loop fuel self = Some self' →
  MinesweeperAI.inference_loop fuel' self = Some self'.
Proof.
  revert fuel' self. induction fuel as [|fuel IH]; intros fuel' self Hle; [done|].
  destruct fuel' as [|fuel']; [lia|]. simpl.
  destruct (MinesweeperAI.update_knowledge (MinesweeperAI.knowledge self) self)
    as [[] self1]; simpl; [|done].
  destruct (MinesweeperAI.update_knowledge _ _) as [[] self3]; simpl; [|done].
  apply IH. lia.
Qed.

End loop_facts.

(** C8. [add_knowledge] always returns: on every state, every cell and
    every count, the [while] loop breaks after finitely many iterations,
    fewer than the number of cells left in the sentences of the knowledge
    (a number that every pass making changes lowers); every amount of fuel
    above that number gives the same final state. *)
Theorem add_knowledge_terminates (self : MinesweeperAI.t) (c : cell) (count : Z) :
  ∃ self',
    ∀ fuel,
      (size (all_cells (MinesweeperAI.knowledge (MinesweeperAI.add_sentence c count self)))
       < fuel)%nat →
      MinesweeperAI.add_knowledge fuel c count self = Some self'.
Proof.
  unfold MinesweeperAI.add_knowledge.
  set (start := MinesweeperAI.add_sentence c count self).
  destruct (inference_loop_terminates
              (S (size (all_cells (MinesweeperAI.knowledge start)))) start)
    as [self' Hrun]; [lia|].
  exists self'. intros fuel Hfuel.
  eapply inference_loop_fuel_mono; [|exact Hrun]. lia.
Qed.

Section soundness.
Context (g : Minesweeper.t).
Implicit Types (self : MinesweeperAI.t) (s : Sentence.t) (c : cell).
Implicit Types (l kn : list Sentence.t) (cs : list cell) (X Y : gset cell).

Local Abbreviation is_mine_prop := (λ c, Minesweeper.is_mine g c = true).

Lemma mine_count_difference X Y :
  Y ⊆ X → mine_count g (X ∖ Y) = mine_count g X - mine_count g Y.
Proof.
  intros HYX. unfold mine_count.
  assert (filter is_mine_prop (X ∖ Y)
          = filter is_mine_prop X ∖ filter is_mine_prop Y) as ->.
  { apply set_eq. intros c. rewrite !elem_of_difference, !elem_of_filter.
    rewrite elem_of_difference. naive_solver. }
  assert (filter is_mine_prop Y ⊆ filter is_mine_prop X) as Hsub.
  { intros c. rewrite !elem_of_filter. naive_solver. }
  rewrite size_difference by done.
  apply subseteq_size in Hsub. lia.
Qed.

Lemma mine_count_singleton c :
  mine_count g {[ c ]} = if Minesweeper.is_mine g c then 1 else 0.
Proof.
  unfold mine_count. destruct (Minesweeper.is_mine g c) eqn:E.
  - rewrite (filter_singleton_True_L (C:=gset cell) is_mine_prop c E).
    by rewrite size_singleton.
  - rewrite (filter_singleton_False_L (C:=gset cell) is_mine_prop c)
      by (simpl; congruence).
    by rewrite size_empty.
Qed.

Lemma mine_count_all X c :
  mine_count g X = Z.of_nat (size X) → c ∈ X → Minesweeper.is_mine g c = true.
Proof.
  unfold mine_count. intros Hsz Hc.
  assert (filter is_mine_prop X = X) as Heq.
  { apply set_subseteq_size_eq; [|lia].
    intros x. rewrite elem_of_filter. naive_solver. }
  rewrite <- Heq in Hc. by apply elem_of_filter in Hc as [? _].
Qed.

Lemma mine_count_none X c :
  mine_count g X = 0 → c ∈ X → Minesweeper.is_mine g c = false.
Proof.
  unfold mine_count. intros Hsz Hc.
  assert (size (filter is_mine_prop X) = 0%nat) as Hz by lia.
  apply size_empty_inv in Hz.
  destruct (Minesweeper.is_mine g c) eqn:E; [|done].
  by destruct (filter_empty_not_elem_of (λ c, Minesweeper.is_mine g c = true) X c).
Qed.

Lemma mine_count_without_safes X Y :
  (∀ c, c ∈ Y → Minesweeper.is_mine g c = false) →
  mine_count g (X ∖ Y) = mine_count g X.
Proof.
  intros HY. unfold mine_count. do 2 f_equal.
  apply set_eq. intros c. rewrite !elem_of_filter, elem_of_difference.
  split; [naive_solver|]. intros [Hm Hc]. split_and!; [done|done|].
  intros ?%HY. congruence.
Qed.

Lemma sound_mark_mine s c :
  Minesweeper.is_mine g c = true → sound g s → sound g (Sentence.mark_mine c s).
Proof.
  unfold sound, Sentence.mark_mine. intros Hc Hs.
  case_decide as Hin; simpl; [|done].
  rewrite mine_count_difference by set_solver.
  rewrite mine_count_singleton, Hc. lia.
Qed.

Lemma sound_mark_safe s c :
  Minesweeper.is_mine g c = false → sound g s → sound g (Sentence.mark_safe c s).
Proof.
  unfold sound, Sentence.mark_safe. intros Hc Hs.
  case_decide as Hin; simpl; [|done].
  rewrite mine_count_difference by set_solver.
  rewrite mine_count_singleton, Hc. lia.
Qed.

Lemma sound_strike_mines cs s :
  (∀ c, c ∈ cs → Minesweeper.is_mine g c = true) →
  sound g s → sound g (strike_mines cs s).
Proof.
  revert s. induction cs as [|c cs IH]; intros s Hcs Hs; [done|].
  unfold strike_mines; simpl. apply IH.
  - intros x Hx. apply Hcs. by right.
  - apply sound_mark_mine; [|done]. apply Hcs. left.
Qed.

Lemma sound_strike_safes cs s :
  (∀ c, c ∈ cs → Minesweeper.is_mine g c = false) →
  sound g s → sound g (strike_safes cs s).
Proof.
  revert s. induction cs as [|c cs IH]; intros s Hcs Hs; [done|].
  unfold strike_safes; simpl. apply IH.
  - intros x Hx. apply Hcs. by right.
  - apply sound_mark_safe; [|done]. apply Hcs. left.
Qed.

(** The known mines of a sound sentence are mines, its known safes are
    not. *)
Lemma sound_known_mines s c :
  sound g s → c ∈ (Sentence.known_mines s).1 → Minesweeper.is_mine g c = true.
Proof.
  unfold sound, Sentence.known_mines; simpl. intros Hs.
  case_decide as Hcnt; [|set_solver].
  apply mine_count_all. congruence.
Qed.

Lemma sound_known_safes s c :
  sound g s → c ∈ (Sentence.known_safes s).1 → Minesweeper.is_mine g c = false.
Proof.
  unfold sound, Sentence.known_safes; simpl. intros Hs.
  case_decide as Hcnt; [|set_solver].
  apply mine_count_none. congruence.
Qed.

Lemma update_knowledge_consistent l self b self' :
  Forall (sound g) l → consistent g self →
  MinesweeperAI.update_knowledge l self = (b, self') →
  consistent g self'.
Proof.
  intros Hl [Hh Hw Hmi Hsa Hmv Hkn]. rewrite update_knowledge_eq. simpl.
  rewrite Forall_forall in Hl.
  assert (∀ c, c ∈ (MinesweeperAI.accumulate l ∅ ∅).1 →
               Minesweeper.is_mine g c = true) as Hum.
  { intros c [?|(s & Hs & Hc)]%elem_of_accumulate_mines; [set_solver|].
    eapply sound_known_mines; eauto. }
  assert (∀ c, c ∈ (MinesweeperAI.accumulate l ∅ ∅).2 →
               Minesweeper.is_mine g c = false) as Hus.
  { intros c [?|(s & Hs & Hc)]%elem_of_accumulate_safes; [set_solver|].
    eapply sound_known_safes; eauto. }
  case_decide; intros [= <- <-]; [done|].
  split; simpl; try done.
  - intros c [?|?]%elem_of_union; auto.
  - intros c [?|?]%elem_of_union; auto.
  - rewrite <- list_fmap_compose. apply Forall_fmap.
    eapply Forall_impl; [exact Hkn|]. intros s Hs. simpl.
    apply sound_strike_safes; [by intros c ?%elem_of_elements; auto|].
    apply sound_strike_mines; [by intros c ?%elem_of_elements; auto|done].
Qed.

Lemma new_sentences_sound kn :
  Forall (sound g) kn → Forall (sound g) (MinesweeperAI.new_sentences kn).
Proof.
  rewrite !Forall_forall. intros Hkn s Hs.
  apply elem_of_new_sentences in Hs as (A & B & HA & HB & [Hsub _] & ->).
  unfold sound; simpl. rewrite mine_count_difference by done.
  rewrite (Hkn A HA), (Hkn B HB). done.
Qed.

Lemma inference_loop_consistent fuel self self' :
  consistent g self →
  MinesweeperAI.inference_loop fuel self = Some self' →
  consistent g self'.
Proof.
  revert self. induction fuel as [|fuel IH]; intros self Hself; [done|].
  simpl.
  destruct (MinesweeperAI.update_knowledge (MinesweeperAI.knowledge self) self)
    as [b1 self1] eqn:E1.
  apply update_knowledge_consistent in E1; [|by destruct Hself|done].
  destruct b1; simpl; [|by intros [= <-]].
  set (new := MinesweeperAI.new_sentences (MinesweeperAI.knowledge self1)).
  assert (Forall (sound g) new) as Hnew.
  { apply new_sentences_sound. by destruct E1. }
  destruct (MinesweeperAI.update_knowledge new _) as [b3 self3] eqn:E3.
  apply update_knowledge_consistent in E3; [|done|].
  - destruct b3; simpl; [by apply IH|by intros [= <-]].
  - destruct E1. split; simpl; try done. by apply Forall_app.
Qed.

End soundness.

Section neighbours.
Context (g : Minesweeper.t).
Implicit Types (self : MinesweeperAI.t) (c x : cell).

Lemma foldl_counting {A} (Q : A → Prop) `{!∀ y, Decision (Q y)}
    (f : Z → A → Z) (l : list A) (a : Z) :
  (∀ n y, f n y = if decide (Q y) then n + 1 else n) →
  foldl f a l = a + Z.of_nat (length (filter Q l)).
Proof.
  intros Hf. revert a. induction l as [|y l IH]; intros a; simpl; [lia|].
  rewrite IH, Hf, filter_cons. case_decide; simpl; lia.
Qed.

Lemma foldl_bind {A B} (f : Z → B → Z) (k : A → list B) (l : list A) (a : Z) :
  foldl (λ n y, foldl f n (k y)) a l = foldl f a (l ≫= k).
Proof.
  revert a. induction l as [|y l IH]; intros a; [done|].
  csimpl. by rewrite foldl_app, IH.
Qed.

Lemma foldl_pointwise {A B} (f f' : A → B → A) (l : list B) (a : A) :
  (∀ n y, f n y = f' n y) → foldl f a l = foldl f' a l.
Proof.
  intros Hf. revert a. induction l as [|y l IH]; intros a; simpl; [done|].
  by rewrite Hf, IH.
Qed.

Lemma nearby_mines_length c :
  Minesweeper.nearby_mines g c
  = Z.of_nat (length (filter (counted g c)
      (product (range (c.1 - 1) (c.1 + 2)) (range (c.2 - 1) (c.2 + 2))))).
Proof.
  unfold Minesweeper.nearby_mines, product.
  set (step := λ (count : Z) (x : cell),
         if decide (counted g c x) then count + 1 else count).
  rewrite <- (Z.add_0_l (Z.of_nat _)).
  rewrite <- (foldl_counting (counted g c) step) by done.
  rewrite <- foldl_bind. apply foldl_pointwise. intros n i.
  rewrite <- foldl_bind. apply foldl_pointwise. intros m j.
  simpl. unfold step, counted, Minesweeper.is_mine; simpl.
  repeat case_decide; try done; destruct (Minesweeper.board_at g i j);
    try done; naive_solver.
Qed.

Lemma elem_of_product {A B} (xs : list A) (ys : list B) (a : A) (b : B) :
  (a, b) ∈ product xs ys ↔ a ∈ xs ∧ b ∈ ys.
Proof.
  unfold product. rewrite list_elem_of_bind. split.
  - intros (a' & (b' & [= -> ->]%list_elem_of_singleton & ?)%list_elem_of_bind & ?).
    done.
  - intros [Ha Hb]. exists a. split; [|done]. apply list_elem_of_bind.
    exists b. split; [|done]. by apply list_elem_of_singleton.
Qed.

Lemma NoDup_product {A B} (xs : list A) (ys : list B) :
  NoDup xs → NoDup ys → NoDup (product xs ys).
Proof.
  intros Hxs Hys. unfold product. apply NoDup_bind; [| |done].
  - intros a1 a2 [a b] _ _.
    intros (b1 & [= -> ->]%list_elem_of_singleton & _)%list_elem_of_bind.
    by intros (b2 & [= -> ->]%list_elem_of_singleton & _)%list_elem_of_bind.
  - intros a0 _. apply NoDup_bind; [| |done].
    + intros b1 b2 [a b] _ _.
      intros [= -> ->]%list_elem_of_singleton.
      by intros [= ->]%list_elem_of_singleton.
    + intros b0 _. apply NoDup_singleton.
Qed.

Lemma elem_of_adjacent_cells self c x :
  x ∈ MinesweeperAI.adjacent_cells self c ↔
  x ∈ product (range (c.1 - 1) (c.1 + 2)) (range (c.2 - 1) (c.2 + 2)) ∧
  ((0 ≤ x.1 ∧ x.1 < MinesweeperAI.height self) ∧
   (0 ≤ x.2 ∧ x.2 < MinesweeperAI.width self)) ∧
  x ≠ c.
Proof.
  unfold MinesweeperAI.adjacent_cells.
  replace (c.1 + 1 + 1) with (c.1 + 2) by lia.
  replace (c.2 + 1 + 1) with (c.2 + 2) by lia.
  destruct x as [i j].
  rewrite elem_of_difference, elem_of_list_to_set, elem_of_singleton,
    elem_of_product, list_elem_of_bind.
  split.
  - intros [(i' & (j' & Hij & Hj)%list_elem_of_bind & Hi) Hne].
    case_decide; [|by apply elem_of_nil in Hij].
    apply list_elem_of_singleton in Hij as [= -> ->]. done.
  - intros [[Hi Hj] [Hin Hne]]. split; [|done].
    exists i. split; [|done]. apply list_elem_of_bind.
    exists j. split; [|done]. rewrite decide_True by done.
    by apply list_elem_of_singleton.
Qed.

(** The count of the board for a cell is the number of mines among the
    adjacent cells the knowledge base computes for it. *)
Lemma nearby_mines_adjacent_cells self c :
  MinesweeperAI.height self = Minesweeper.height g →
  MinesweeperAI.width self = Minesweeper.width g →
  Minesweeper.nearby_mines g c = mine_count g (MinesweeperAI.adjacent_cells self c).
Proof.
  intros Hh Hw. rewrite nearby_mines_length. unfold mine_count. f_equal.
  set (L := product _ _).
  assert (NoDup L) as HL by (apply NoDup_product; apply NoDup_seqZ).
  rewrite <- (size_list_to_set (C:=gset cell)) by by apply NoDup_filter.
  f_equal. apply set_eq. intros x.
  rewrite elem_of_list_to_set, list_elem_of_filter, elem_of_filter,
    elem_of_adjacent_cells.
  fold L. unfold counted. rewrite Hh, Hw. naive_solver.
Qed.

Lemma add_sentence_consistent self c count :
  contract g self c count → consistent g self →
  consistent g (MinesweeperAI.add_sentence c count self).
Proof.
  intros (Hin & Hnew & Hsafe & ->) [Hh Hw Hmi Hsa Hmv Hkn].
  split; simpl; try done.
  - intros x [->%elem_of_singleton|?]%elem_of_union; auto.
  - intros x [->%elem_of_singleton|?]%elem_of_union; auto.
  - apply Forall_app. split.
    + apply Forall_fmap. eapply Forall_impl; [exact Hkn|].
      intros s Hs. by apply sound_mark_safe.
    + apply Forall_singleton. unfold sound; simpl.
      rewrite mine_count_without_safes.
      * by apply nearby_mines_adjacent_cells.
      * intros x [->%elem_of_singleton|?]%elem_of_union; auto.
Qed.

End neighbours.

Section monotone.
Implicit Types (self : MinesweeperAI.t) (c : cell) (l : list Sentence.t).

Lemma update_knowledge_grows l self b self' :
  MinesweeperAI.update_knowledge l self = (b, self') →
  MinesweeperAI.mines self ⊆ MinesweeperAI.mines self' ∧
  MinesweeperAI.safes self ⊆ MinesweeperAI.safes self'.
Proof.
  rewrite update_knowledge_eq. simpl.
  case_decide; intros [= <- <-]; simpl; set_solver.
Qed.

Lemma inference_loop_grows fuel self self' :
  MinesweeperAI.inference_loop fuel self = Some self' →
  MinesweeperAI.mines self ⊆ MinesweeperAI.mines self' ∧
  MinesweeperAI.safes self ⊆ MinesweeperAI.safes self'.
Proof.
  revert self. induction fuel as [|fuel IH]; intros self; [done|]. simpl.
  destruct (MinesweeperAI.update_knowledge (MinesweeperAI.knowledge self) self)
    as [b1 self1] eqn:E1.
  apply update_knowledge_grows in E1 as [Hm1 Hs1].
  destruct b1; simpl; [|by intros [= <-]].
  destruct (MinesweeperAI.update_knowledge _ _) as [b3 self3] eqn:E3.
  apply update_knowledge_grows in E3 as [Hm3 Hs3]. simpl in Hm3, Hs3.
  destruct b3; simpl.
  - intros [Hm Hs]%IH. split; set_solver.
  - intros [= <-]. split; set_solver.
Qed.

Lemma add_knowledge_grows fuel c count self self' :
  MinesweeperAI.add_knowledge fuel c count self = Some self' →
  MinesweeperAI.mines self ⊆ MinesweeperAI.mines self' ∧
  MinesweeperAI.safes self ⊆ MinesweeperAI.safes self'.
Proof.
  unfold MinesweeperAI.add_knowledge.
  intros [Hm Hs]%inference_loop_grows. simpl in Hm, Hs. split; set_solver.
Qed.

Lemma consistent_init g :
  consistent g (MinesweeperAI.init (Minesweeper.height g) (Minesweeper.width g)).
Proof. split; simpl; try done; set_solver. Qed.

Lemma consistent_disjoint g self :
  consistent g self → MinesweeperAI.mines self ## MinesweeperAI.safes self.
Proof.
  intros [_ _ Hmi Hsa _ _] c Hm%Hmi Hs%Hsa. congruence.
Qed.

Lemma add_knowledge_consistent g fuel c count self self' :
  contract g self c count → consistent g self →
  MinesweeperAI.add_knowledge fuel c count self = Some self' →
  consistent g self'.
Proof.
  intros Hc Hself. unfold MinesweeperAI.add_knowledge.
  apply inference_loop_consistent. by apply add_sentence_consistent.
Qed.

Lemma game_consistent g trace :
  game g trace → Forall (consistent g) trace.
Proof.
  induction 1 as [|self past c count fuel self' _ IH Hc Hrun].
  - apply Forall_singleton, consistent_init.
  - apply Forall_cons. split; [|done].
    apply Forall_cons in IH as [Hself _].
    by eapply add_knowledge_consistent.
Qed.

End monotone.

(** C7. Along a game, every call of [add_knowledge] being made for a cell
    of the board that was not revealed before and is not a mine, with the
    count the board gives for it: [mines] and [safes] of a later state
    contain those of every earlier state, and in every state no cell is in
    both. *)
Theorem mines_safes_monotone_disjoint (g : Minesweeper.t)
    (trace : list MinesweeperAI.t) :
  game g trace →
  (∀ self, self ∈ trace →
     MinesweeperAI.mines self ## MinesweeperAI.safes self) ∧
  (∀ i j later earlier,
     (i ≤ j)%nat → trace !! i = Some later → trace !! j = Some earlier →
     MinesweeperAI.mines earlier ⊆ MinesweeperAI.mines later ∧
     MinesweeperAI.safes earlier ⊆ MinesweeperAI.safes later).
Proof.
  intros Hgame. split.
  - intros self Hself. apply (consistent_disjoint g).
    apply game_consistent in Hgame. rewrite Forall_forall in Hgame. auto.
  - induction Hgame as [|self past c count fuel self' _ IH Hc Hrun].
    + intros i j later earlier _ Hi Hj.
      apply list_lookup_singleton_Some in Hi as [_ <-].
      by apply list_lookup_singleton_Some in Hj as [_ <-].
    + apply add_knowledge_grows in Hrun as [Hm Hs].
      intros [|i] [|j] later earlier Hij Hi Hj; simpl in Hi, Hj; [| |lia|].
      * by simplify_eq.
      * injection Hi as <-.
        destruct (IH 0%nat j self earlier) as [Hm' Hs']; [lia|done|done|].
        split; set_solver.
      * apply (IH i j); [lia|done|done].
Qed.

(** A game on the board of one row [safe, mine, safe, safe]: the cells
    (0,0) and (0,2) are revealed, each with the count 1. *)
Lemma mines_safes_monotone_disjoint_witness :
  let g := Minesweeper.Build 1 4 {[ (0, 1) ]} [[false; true; false; false]] ∅ in
  let self0 := MinesweeperAI.init 1 4 in
  let self1 := MinesweeperAI.Build 1 4 {[ (0, 0) ]} {[ (0, 1) ]} {[ (0, 0) ]}
                 [Sentence.Build ∅ 0] in
  let self2 := MinesweeperAI.Build 1 4 {[ (0, 0); (0, 2) ]} {[ (0, 1) ]}
                 {[ (0, 0); (0, 2) ]}
                 [Sentence.Build ∅ 0; Sentence.Build {[ (0, 1); (0, 3) ]} 1] in
  game g [self2; self1; self0] ∧
  MinesweeperAI.mines self2 ## MinesweeperAI.safes self2 ∧
  MinesweeperAI.mines self0 ⊆ MinesweeperAI.mines self2 ∧
  MinesweeperAI.safes self0 ⊆ MinesweeperAI.safes self2.
Proof.
  intros g self0 self1 self2.
  assert (game g [self2; self1; self0]) as Hgame.
  { apply (game_reveal g self1 [self0] (0, 2) 1 1).
    - apply (game_reveal g self0 [] (0, 0) 1 1).
      + apply game_start. split; [reflexivity|]. by apply Forall_singleton.
      + split_and!; vm_compute; (reflexivity || lia || set_solver || congruence || idtac).
      + vm_compute; reflexivity.
    - split_and!; vm_compute; (reflexivity || lia || set_solver || congruence || idtac).
    - vm_compute; reflexivity. }
  split; [exact Hgame|].
  destruct (mines_safes_monotone_disjoint g _ Hgame) as [Hdisj Hmono].
  split.
  - apply Hdisj. apply list_elem_of_here.
  - apply (Hmono 0%nat 2%nat); [lia|reflexivity|reflexivity].
Defined.

(** * Move selection *)

Section move_facts.
Implicit Types (self : MinesweeperAI.t) (s : gset cell).

Lemma next_iter_elem s :
  s ≠ ∅ → ∃ c, next_iter s = Return c ∧ c ∈ s.
Proof.
  intros Hne. unfold next_iter.
  destruct (elements s) as [|c l] eqn:E.
  - by apply elements_empty_inv, leibniz_equiv in E.
  - exists c. split; [done|]. apply elem_of_elements. rewrite E. left.
Qed.

Lemma random_sample_1_empty rnd s :
  s = ∅ → random_sample_1 rnd s = Raise ValueError.
Proof. intros ->. unfold random_sample_1. by rewrite elements_empty. Qed.


End move_facts.

(** C9. [make_safe_move] leaves the knowledge base as it is; when
    [safes - moves_made] has a member it returns one (so a cell that is not
    in [moves_made]), otherwise it returns [None]; a second call made on the
    state left by the first returns what the first returned. *)
Theorem make_safe_move_spec (self : MinesweeperAI.t) :
  snd (MinesweeperAI.make_safe_move self) = self ∧
  (MinesweeperAI.safes self ∖ MinesweeperAI.moves_made self ≠ ∅ →
     ∃ c, fst (MinesweeperAI.make_safe_move self) = Return (Some c) ∧
          c ∈ MinesweeperAI.safes self ∖ MinesweeperAI.moves_made self ∧
          c ∉ MinesweeperAI.moves_made self) ∧
  (MinesweeperAI.safes self ∖ MinesweeperAI.moves_made self = ∅ →
     fst (MinesweeperAI.make_safe_move self) = Return None) ∧
  fst (MinesweeperAI.make_safe_move (snd (MinesweeperAI.make_safe_move self)))
    = fst (MinesweeperAI.make_safe_move self).
Proof.
  unfold MinesweeperAI.make_safe_move; simpl. split_and!; [done| | |done].
  - intros Hne.
    destruct (next_iter_elem _ Hne) as (c & Hc & Hin).
    exists c. rewrite Hc, decide_True.
    + split_and!; [done|done|set_solver].
    + assert (size (MinesweeperAI.safes self ∖ MinesweeperAI.moves_made self) ≠ 0%nat);
        [|lia].
      apply size_non_empty_iff. by intros E%leibniz_equiv.
  - intros ->. by rewrite size_empty.
Qed.

(** C1. The pool of [make_random_move] can be empty: on a board of one
    cell, after that cell has been revealed, every cell of the board is in
    [moves_made], and [make_random_move] raises [ValueError] whatever the
    generator draws; it does not return a "no move" value. *)
Theorem make_random_move_exhausted_raises :
  ∃ self,
    MinesweeperAI.add_knowledge 1 (0, 0) 0 (MinesweeperAI.init 1 1) = Some self ∧
    list_to_set (product (range 0 (MinesweeperAI.height self))
                         (range 0 (MinesweeperAI.width self)))
      ∖ MinesweeperAI.moves_made self ∖ MinesweeperAI.mines self = (∅ : gset cell) ∧
    ∀ rnd, MinesweeperAI.make_random_move rnd self = (Raise ValueError, self).
Proof.
  exists (MinesweeperAI.Build 1 1 {[ (0, 0) ]} ∅ {[ (0, 0) ]} [Sentence.Build ∅ 0]).
  split_and!.
  - vm_compute; reflexivity.
  - vm_compute; reflexivity.
  - intros rnd. unfold MinesweeperAI.make_random_move.
    rewrite random_sample_1_empty; [done|]. vm_compute; reflexivity.
Qed.

(** * Scenarios *)

(** C10. On a board of 2 by 2 cells, from a fresh knowledge base, the call
    [add_knowledge((1,1), 1)] appends the sentence over the cells (0,0),
    (0,1), (1,0) with count 1, and after the further call
    [add_knowledge((0,1), 1)] the cells (1,1) and (0,1) are in [safes] and
    [mines] is empty. *)
Theorem scenario_two_by_two (fuel : nat) :
  ∃ self1 self2,
    MinesweeperAI.add_knowledge (S fuel) (1, 1) 1 (MinesweeperAI.init 2 2) = Some self1 ∧
    MinesweeperAI.knowledge self1
      = MinesweeperAI.knowledge (MinesweeperAI.init 2 2)
        ++ [Sentence.Build {[ (0, 0); (0, 1); (1, 0) ]} 1] ∧
    MinesweeperAI.add_knowledge (S fuel) (0, 1) 1 self1 = Some self2 ∧
    {[ (1, 1); (0, 1) ]} ⊆ MinesweeperAI.safes self2 ∧
    MinesweeperAI.mines self2 = ∅.
Proof.
  exists (MinesweeperAI.Build 2 2 {[ (1, 1) ]} ∅ {[ (1, 1) ]}
            [Sentence.Build {[ (0, 0); (0, 1); (1, 0) ]} 1]).
  exists (MinesweeperAI.Build 2 2 {[ (1, 1); (0, 1) ]} ∅ {[ (1, 1); (0, 1) ]}
            [Sentence.Build {[ (0, 0); (1, 0) ]} 1;
             Sentence.Build {[ (0, 0); (1, 0) ]} 1]).
  split_and!; [vm_compute; reflexivity ..| |reflexivity].
  simpl. set_solver.
Qed.

(** C2. [add_knowledge] can return before a fixpoint is reached.  On a
    board of 3 by 3 cells with one mine at (1,0), after the calls
    [add_knowledge((0,0), 1)] and [add_knowledge((0,1), 1)] the knowledge
    holds the sentences ({(1,0),(1,1)}, 1) and
    ({(0,2),(1,0),(1,1),(1,2)}, 1).  The first scan finds no known mine or
    safe and the loop stops there; a subset-inference pass on the returned
    state still derives ({(0,2),(1,2)}, 0), and the closure on it marks
    (0,2) and (1,2), which are not in [safes], as safe. *)
Theorem add_knowledge_returns_before_fixpoint (fuel : nat) :
  ∃ self new after,
    (MinesweeperAI.add_knowledge (S fuel) (0, 0) 1 (MinesweeperAI.init 3 3)
       ≫= MinesweeperAI.add_knowledge (S fuel) (0, 1) 1) = Some self ∧
    MinesweeperAI.knowledge self
      = [Sentence.Build {[ (1, 0); (1, 1) ]} 1;
         Sentence.Build {[ (0, 2); (1, 0); (1, 1); (1, 2) ]} 1] ∧
    MinesweeperAI.new_sentences (MinesweeperAI.knowledge self) = new ∧
    new = [Sentence.Build {[ (0, 2); (1, 2) ]} 0] ∧
    MinesweeperAI.update_knowledge new
      (MinesweeperAI.set_knowledge (λ kn, kn ++ new) self) = (true, after) ∧
    MinesweeperAI.safes self = {[ (0, 0); (0, 1) ]} ∧
    MinesweeperAI.safes after = {[ (0, 0); (0, 1); (0, 2); (1, 2) ]}.
Proof.
  exists (MinesweeperAI.Build 3 3 {[ (0, 0); (0, 1) ]} ∅ {[ (0, 0); (0, 1) ]}
            [Sentence.Build {[ (1, 0); (1, 1) ]} 1;
             Sentence.Build {[ (0, 2); (1, 0); (1, 1); (1, 2) ]} 1]).
  exists [Sentence.Build {[ (0, 2); (1, 2) ]} 0].
  exists (MinesweeperAI.Build 3 3 {[ (0, 0); (0, 1) ]} ∅
            {[ (0, 0); (0, 1); (0, 2); (1, 2) ]}
            [Sentence.Build {[ (1, 0); (1, 1) ]} 1;
             Sentence.Build {[ (1, 0); (1, 1) ]} 1;
             Sentence.Build ∅ 0]).
  split_and!; vm_compute; reflexivity.
Qed.

(** C3. A sentence can be inserted over a cell that is already known.  On
    a board of 1 by 4 cells with one mine at (0,1), the call
    [add_knowledge((0,0), 1)] proves (0,1) a mine; the call
    [add_knowledge((0,2), 1)] then appends the sentence
    ({(0,1),(0,3)}, 1), although (0,1) is in [mines] (only the cells of
    [moves_made] are left out), and (0,1) is still in that sentence when the
    call returns. *)
Theorem known_mine_inserted_in_sentence (fuel : nat) :
  ∃ self1 self2,
    MinesweeperAI.add_knowledge (S fuel) (0, 0) 1 (MinesweeperAI.init 1 4) = Some self1 ∧
    MinesweeperAI.mines self1 = {[ (0, 1) ]} ∧
    MinesweeperAI.knowledge (MinesweeperAI.add_sentence (0, 2) 1 self1)
      = (Sentence.mark_safe (0, 2) <$> MinesweeperAI.knowledge self1)
        ++ [Sentence.Build {[ (0, 1); (0, 3) ]} 1] ∧
    MinesweeperAI.add_knowledge (S fuel) (0, 2) 1 self1 = Some self2 ∧
    MinesweeperAI.mines self2 = {[ (0, 1) ]} ∧
    MinesweeperAI.knowledge self2
      = [Sentence.Build ∅ 0; Sentence.Build {[ (0, 1); (0, 3) ]} 1].
Proof.
  exists (MinesweeperAI.Build 1 4 {[ (0, 0) ]} {[ (0, 1) ]} {[ (0, 0) ]}
            [Sentence.Build ∅ 0]).
  exists (MinesweeperAI.Build 1 4 {[ (0, 0); (0, 2) ]} {[ (0, 1) ]} {[ (0, 0); (0, 2) ]}
            [Sentence.Build ∅ 0; Sentence.Build {[ (0, 1); (0, 3) ]} 1]).
  split_and!; vm_compute; reflexivity.
Qed.

(** * Further properties *)

Section closed_form.
Implicit Types (self : MinesweeperAI.t) (s : Sentence.t) (c : cell).
Implicit Types (l kn : list Sentence.t) (cs : list cell) (um us : gset cell).

Lemma sentence_eq s s' :
  Sentence.cells s = Sentence.cells s' → Sentence.count s = Sentence.count s' →
  s = s'.
Proof. destruct s, s'; simpl. by intros -> ->. Qed.

Lemma strike_mines_count cs s :
  Sentence.count (strike_mines cs s)
  = Sentence.count s - Z.of_nat (size (Sentence.cells s ∩ list_to_set cs)).
Proof.
  revert s. induction cs as [|c cs IH]; intros s.
  - simpl. replace (Sentence.cells s ∩ ∅) with (∅ : gset cell)
      by (apply set_eq; set_solver).
    rewrite size_empty. lia.
  - unfold strike_mines in *. simpl. rewrite IH.
    unfold Sentence.mark_mine. case_decide as Hc; simpl.
    + replace (Sentence.cells s ∩ ({[c]} ∪ list_to_set cs))
        with ({[c]} ∪ (Sentence.cells s ∖ {[c]}) ∩ list_to_set cs)
        by (apply set_eq; intros x; destruct (decide (x = c)); set_solver).
      rewrite (size_union (C:=gset cell) {[c]}), size_singleton; [lia|set_solver].
    + do 3 f_equal. apply set_eq. set_solver.
Qed.

Lemma strike_safes_count cs s :
  Sentence.count (strike_safes cs s) = Sentence.count s.
Proof.
  revert s. induction cs as [|c cs IH]; intros s; [done|].
  unfold strike_safes in *. simpl. rewrite IH.
  unfold Sentence.mark_safe. by case_decide.
Qed.

Lemma strike_struck um us s :
  strike_safes (elements us) (strike_mines (elements um) s) = struck um us s.
Proof.
  apply sentence_eq.
  - rewrite strike_safes_cells, strike_mines_cells.
    by rewrite !list_to_set_elements_L.
  - rewrite strike_safes_count, strike_mines_count.
    by rewrite list_to_set_elements_L.
Qed.

Lemma accumulate_collected l :
  MinesweeperAI.accumulate l ∅ ∅ = (collected_mines l, collected_safes l).
Proof.
  apply injective_projections; simpl; apply set_eq; intros c.
  - rewrite elem_of_accumulate_mines. unfold collected_mines.
    rewrite elem_of_union_list. split.
    + intros [?|(s & Hs & Hc)]; [set_solver|].
      exists (Sentence.known_mines s).1. split; [|done].
      by apply (list_elem_of_fmap_2 (λ s, (Sentence.known_mines s).1)).
    + intros (X & (s & -> & Hs)%list_elem_of_fmap & Hc). right. eauto.
  - rewrite elem_of_accumulate_safes. unfold collected_safes.
    rewrite elem_of_union_list. split.
    + intros [?|(s & Hs & Hc)]; [set_solver|].
      exists (Sentence.known_safes s).1. split; [|done].
      by apply (list_elem_of_fmap_2 (λ s, (Sentence.known_safes s).1)).
    + intros (X & (s & -> & Hs)%list_elem_of_fmap & Hc). right. eauto.
Qed.

End closed_form.

(** X1. [update_knowledge] does not depend on the order in which the two
    collected sets are iterated.  It reports no change, and changes
    nothing, exactly when no listed sentence has a known mine or a known
    safe; otherwise the collected cells are added to [mines] and [safes],
    and every sentence of the knowledge loses the collected cells, its
    count going down by the number of its cells that were collected as
    mines. *)
Theorem update_knowledge_closed_form (l : list Sentence.t) (self : MinesweeperAI.t) :
  MinesweeperAI.update_knowledge l self
  = if decide (collected_mines l = ∅ ∧ collected_safes l = ∅)
    then (false, self)
    else (true,
          MinesweeperAI.Build (MinesweeperAI.height self) (MinesweeperAI.width self)
            (MinesweeperAI.moves_made self)
            (MinesweeperAI.mines self ∪ collected_mines l)
            (MinesweeperAI.safes self ∪ collected_safes l)
            (struck (collected_mines l) (collected_safes l)
               <$> MinesweeperAI.knowledge self)).
Proof.
  rewrite update_knowledge_eq, accumulate_collected. simpl.
  destruct (decide (size (collected_mines l) + size (collected_safes l) = 0)%nat)
    as [Hsz|Hsz].
  - rewrite decide_True; [done|].
    split; apply leibniz_equiv, size_empty_iff; lia.
  - rewrite decide_False.
    + f_equal. f_equal; [apply set_eq; set_solver..|].
      rewrite <- list_fmap_compose. apply list_fmap_ext.
      intros _ s _. apply strike_struck.
    + intros [Hm Hs]. rewrite Hm, Hs, size_empty in Hsz. lia.
Qed.

Section commute.
Implicit Types (self : MinesweeperAI.t) (s : Sentence.t) (a b c : cell).

Lemma sentence_mark_mine_count s c :
  Sentence.count (Sentence.mark_mine c s)
  = Sentence.count s - (if decide (c ∈ Sentence.cells s) then 1 else 0).
Proof. unfold Sentence.mark_mine. case_decide; simpl; lia. Qed.

Lemma sentence_mark_safe_count s c :
  Sentence.count (Sentence.mark_safe c s) = Sentence.count s.
Proof. unfold Sentence.mark_safe. by case_decide. Qed.

Lemma sentence_mark_mine_comm s a b :
  Sentence.mark_mine a (Sentence.mark_mine b s)
  = Sentence.mark_mine b (Sentence.mark_mine a s).
Proof.
  apply sentence_eq.
  - rewrite !sentence_mark_mine_cells. apply set_eq. set_solver.
  - rewrite !sentence_mark_mine_count, !sentence_mark_mine_cells.
    destruct (decide (a = b)) as [->|Hab]; [done|].
    repeat case_decide; try lia; set_solver.
Qed.

Lemma sentence_mark_safe_comm s a b :
  Sentence.mark_safe a (Sentence.mark_safe b s)
  = Sentence.mark_safe b (Sentence.mark_safe a s).
Proof.
  apply sentence_eq.
  - rewrite !sentence_mark_safe_cells. apply set_eq. set_solver.
  - by rewrite !sentence_mark_safe_count.
Qed.

Lemma sentence_mark_mine_safe_comm s a b :
  a ≠ b →
  Sentence.mark_mine a (Sentence.mark_safe b s)
  = Sentence.mark_safe b (Sentence.mark_mine a s).
Proof.
  intros Hab. apply sentence_eq.
  - rewrite sentence_mark_mine_cells, !sentence_mark_safe_cells,
      sentence_mark_mine_cells.
    apply set_eq. set_solver.
  - rewrite sentence_mark_mine_count, !sentence_mark_safe_count,
      sentence_mark_mine_count, sentence_mark_safe_cells.
    repeat case_decide; try lia; set_solver.
Qed.

End commute.

(** X2. Markings of the knowledge base can be made in any order: two
    [mark_mine], or two [mark_safe], always commute, and a [mark_mine]
    commutes with a [mark_safe] of another cell.  For one and the same cell
    of a sentence they do not: marked as a mine first, the count goes down
    by one; marked as safe first, it stays. *)
Theorem marks_commute (self : MinesweeperAI.t) (s : Sentence.t) (a b : cell) :
  MinesweeperAI.mark_mine a (MinesweeperAI.mark_mine b self)
    = MinesweeperAI.mark_mine b (MinesweeperAI.mark_mine a self) ∧
  MinesweeperAI.mark_safe a (MinesweeperAI.mark_safe b self)
    = MinesweeperAI.mark_safe b (MinesweeperAI.mark_safe a self) ∧
  (a ≠ b →
     MinesweeperAI.mark_mine a (MinesweeperAI.mark_safe b self)
       = MinesweeperAI.mark_safe b (MinesweeperAI.mark_mine a self)) ∧
  (a ∈ Sentence.cells s →
     Sentence.count (Sentence.mark_safe a (Sentence.mark_mine a s))
       = Sentence.count s - 1 ∧
     Sentence.count (Sentence.mark_mine a (Sentence.mark_safe a s))
       = Sentence.count s).
Proof.
  destruct self as [h w mv mi sa kn].
  unfold MinesweeperAI.mark_mine, MinesweeperAI.mark_safe,
    MinesweeperAI.for_each_sentence, MinesweeperAI.set_knowledge,
    MinesweeperAI.set_mines, MinesweeperAI.set_safes; simpl.
  split_and!.
  - f_equal; [apply set_eq; set_solver|].
    rewrite <- !list_fmap_compose. apply list_fmap_ext.
    intros _ s' _. apply sentence_mark_mine_comm.
  - f_equal; [apply set_eq; set_solver|].
    rewrite <- !list_fmap_compose. apply list_fmap_ext.
    intros _ s' _. apply sentence_mark_safe_comm.
  - intros Hab. f_equal.
    rewrite <- !list_fmap_compose. apply list_fmap_ext.
    intros _ s' _. by apply sentence_mark_mine_safe_comm.
  - intros Ha.
    rewrite sentence_mark_safe_count, !sentence_mark_mine_count,
      sentence_mark_safe_cells, sentence_mark_safe_count.
    rewrite decide_True by done. rewrite decide_False by set_solver. lia.
Qed.

Section deduction.
Context (g : Minesweeper.t).
Implicit Types (self : MinesweeperAI.t) (s : Sentence.t) (c : cell).

Lemma mine_count_bounds (X : gset cell) :
  0 ≤ mine_count g X ∧ mine_count g X ≤ Z.of_nat (size X).
Proof.
  unfold mine_count. split; [lia|].
  apply inj_le, subseteq_size. intros c. rewrite elem_of_filter. naive_solver.
Qed.

Lemma mark_mine_consistent self c :
  Minesweeper.is_mine g c = true → consistent g self →
  consistent g (MinesweeperAI.mark_mine c self).
Proof.
  intros Hc [Hh Hw Hmi Hsa Hmv Hkn]. split; simpl; try done.
  - intros x [->%elem_of_singleton|?]%elem_of_union; auto.
  - apply Forall_fmap. eapply Forall_impl; [exact Hkn|].
    intros s Hs. by apply sound_mark_mine.
Qed.

Lemma mark_safe_consistent self c :
  Minesweeper.is_mine g c = false → consistent g self →
  consistent g (MinesweeperAI.mark_safe c self).
Proof.
  intros Hc [Hh Hw Hmi Hsa Hmv Hkn]. split; simpl; try done.
  - intros x [->%elem_of_singleton|?]%elem_of_union; auto.
  - apply Forall_fmap. eapply Forall_impl; [exact Hkn|].
    intros s Hs. by apply sound_mark_safe.
Qed.

End deduction.

(** X3. The two deductions of a sentence are right on every board: when
    the count of a sentence is the number of mines among its cells, every
    cell [known_mines] returns is a mine of the board and no cell
    [known_safes] returns is one. *)
Theorem known_cells_sound (g : Minesweeper.t) (s : Sentence.t) :
  sound g s →
  (∀ c, c ∈ (Sentence.known_mines s).1 → Minesweeper.is_mine g c = true) ∧
  (∀ c, c ∈ (Sentence.known_safes s).1 → Minesweeper.is_mine g c = false).
Proof.
  intros Hs. split; intros c Hc.
  - by apply (sound_known_mines g s).
  - by apply (sound_known_safes g s).
Qed.

(** On the row [safe, mine, safe, safe], the sentence ({(0,1)}, 1). *)
Lemma known_cells_sound_witness :
  let g := Minesweeper.Build 1 4 {[ (0, 1) ]} [[false; true; false; false]] ∅ in
  let s := Sentence.Build {[ (0, 1) ]} 1 in
  sound g s ∧
  (∀ c, c ∈ (Sentence.known_mines s).1 → Minesweeper.is_mine g c = true) ∧
  (∀ c, c ∈ (Sentence.known_safes s).1 → Minesweeper.is_mine g c = false).
Proof.
  intros g s.
  assert (sound g s) as Hs by (vm_compute; reflexivity).
  split; [exact Hs|]. exact (known_cells_sound g s Hs).
Defined.

(** X4. Subset inference is right on every board: from sentences whose
    counts are the numbers of mines among their cells, every derived
    sentence has a cell, its count is the number of mines among its cells,
    and so lies between 0 and the number of its cells. *)
Theorem new_sentences_sound_bounded (g : Minesweeper.t) (kn : list Sentence.t) :
  Forall (sound g) kn →
  Forall (λ s, sound g s ∧ Sentence.cells s ≠ ∅ ∧
               0 ≤ Sentence.count s ∧
               Sentence.count s ≤ Z.of_nat (size (Sentence.cells s)))
         (MinesweeperAI.new_sentences kn).
Proof.
  intros Hkn. pose proof (new_sentences_sound g kn Hkn) as Hnew.
  rewrite Forall_forall in Hnew. apply Forall_forall. intros s Hs.
  pose proof (Hnew s Hs) as Hsound. split; [done|]. split.
  - apply elem_of_new_sentences in Hs as (A & B & _ & _ & Hsub & ->). simpl.
    intros Hempty. destruct Hsub as [Hsub Hne]. apply Hne.
    intros x Hx. destruct (decide (x ∈ Sentence.cells A)); [done|].
    assert (x ∈ Sentence.cells B ∖ Sentence.cells A) as Hin by set_solver.
    rewrite Hempty in Hin. set_solver.
  - unfold sound in Hsound. rewrite Hsound. apply mine_count_bounds.
Qed.

(** On the row [safe, mine, safe, safe]: from ({(0,1)}, 1) and
    ({(0,1),(0,3)}, 1) the sentence ({(0,3)}, 0) is derived. *)
Lemma new_sentences_sound_bounded_witness :
  let g := Minesweeper.Build 1 4 {[ (0, 1) ]} [[false; true; false; false]] ∅ in
  let kn := [Sentence.Build {[ (0, 1) ]} 1; Sentence.Build {[ (0, 1); (0, 3) ]} 1] in
  Forall (sound g) kn ∧
  MinesweeperAI.new_sentences kn = [Sentence.Build {[ (0, 3) ]} 0] ∧
  Forall (λ s, sound g s ∧ Sentence.cells s ≠ ∅ ∧
               0 ≤ Sentence.count s ∧
               Sentence.count s ≤ Z.of_nat (size (Sentence.cells s)))
         (MinesweeperAI.new_sentences kn).
Proof.
  intros g kn.
  assert (Forall (sound g) kn) as Hkn.
  { repeat apply Forall_cons_2; [vm_compute; reflexivity..|apply Forall_nil_2]. }
  split; [exact Hkn|]. split; [vm_compute; reflexivity|].
  exact (new_sentences_sound_bounded g kn Hkn).
Defined.

(** X5. Telling the knowledge base a true fact keeps it right: when the
    knowledge base agrees with a board, it still does after [mark_mine] of
    a cell that is a mine of the board, and after [mark_safe] of a cell that
    is not. *)
Theorem true_marks_keep_consistent (g : Minesweeper.t) (self : MinesweeperAI.t)
    (c : cell) :
  consistent g self →
  (Minesweeper.is_mine g c = true → consistent g (MinesweeperAI.mark_mine c self)) ∧
  (Minesweeper.is_mine g c = false → consistent g (MinesweeperAI.mark_safe c self)).
Proof.
  intros Hself. split; intros Hc.
  - by apply mark_mine_consistent.
  - by apply mark_safe_consistent.
Qed.

(** On the row [safe, mine, safe, safe], the knowledge base that holds
    the sentence ({(0,1),(0,3)}, 1), told that (0,1) is a mine. *)
Lemma true_marks_keep_consistent_witness :
  let g := Minesweeper.Build 1 4 {[ (0, 1) ]} [[false; true; false; false]] ∅ in
  let self := MinesweeperAI.Build 1 4 {[ (0, 2) ]} ∅ {[ (0, 2) ]}
                [Sentence.Build {[ (0, 1); (0, 3) ]} 1] in
  consistent g self ∧
  Minesweeper.is_mine g (0, 1) = true ∧
  consistent g (MinesweeperAI.mark_mine (0, 1) self).
Proof.
  intros g self.
  assert (consistent g self) as Hself.
  { split; simpl; [reflexivity|reflexivity|set_solver| | |].
    - by intros c ->%elem_of_singleton.
    - by intros c ->%elem_of_singleton.
    - apply Forall_singleton. vm_compute; reflexivity. }
  split; [exact Hself|]. split; [reflexivity|].
  apply (true_marks_keep_consistent g self (0, 1) Hself). reflexivity.
Defined.

(** X6. Along a game the knowledge base is never wrong: in every state,
    every cell of [mines] is a mine of the board, no cell of [safes] or of
    [moves_made] is one, and the count of every sentence of the knowledge
    is the number of mines among its cells, between 0 and the number of
    these cells. *)
Theorem game_knowledge_sound (g : Minesweeper.t) (trace : list MinesweeperAI.t) :
  game g trace →
  Forall (λ self,
    (∀ c, c ∈ MinesweeperAI.mines self → Minesweeper.is_mine g c = true) ∧
    (∀ c, c ∈ MinesweeperAI.safes self → Minesweeper.is_mine g c = false) ∧
    (∀ c, c ∈ MinesweeperAI.moves_made self → Minesweeper.is_mine g c = false) ∧
    Forall (λ s, Sentence.count s = mine_count g (Sentence.cells s) ∧
                 0 ≤ Sentence.count s ∧
                 Sentence.count s ≤ Z.of_nat (size (Sentence.cells s)))
           (MinesweeperAI.knowledge self))
    trace.
Proof.
  intros Hgame%game_consistent.
  eapply Forall_impl; [exact Hgame|].
  intros self [_ _ Hmi Hsa Hmv Hkn]. split_and!; [done..|].
  eapply Forall_impl; [exact Hkn|]. intros s Hs. split; [done|].
  unfold sound in Hs. rewrite Hs. apply mine_count_bounds.
Qed.

Lemma next_iter_Return (X : gset cell) (c : cell) :
  next_iter X = Return c → c ∈ X.
Proof.
  unfold next_iter. destruct (elements X) as [|x l] eqn:E; [done|].
  intros [= ->]. apply elem_of_elements. rewrite E. apply list_elem_of_here.
Qed.

Lemma make_safe_move_in (self : MinesweeperAI.t) (c : cell) :
  fst (MinesweeperAI.make_safe_move self) = Return (Some c) →
  c ∈ MinesweeperAI.safes self ∧ c ∉ MinesweeperAI.moves_made self.
Proof.
  unfold MinesweeperAI.make_safe_move; simpl. case_decide; [|done].
  destruct (next_iter _) as [x|e] eqn:E; [|done].
  intros [= ->]. apply next_iter_Return in E. set_solver.
Qed.

(** X7. Along a game [make_safe_move] never returns a mine: the cell it
    returns is not a mine of the board, and was not revealed before. *)
Theorem make_safe_move_never_a_mine (g : Minesweeper.t) (self : MinesweeperAI.t)
    (past : list MinesweeperAI.t) (c : cell) :
  game g (self :: past) →
  fst (MinesweeperAI.make_safe_move self) = Return (Some c) →
  Minesweeper.is_mine g c = false ∧ c ∉ MinesweeperAI.moves_made self.
Proof.
  intros Hgame%game_consistent Hmove.
  apply Forall_cons in Hgame as [[_ _ _ Hsa _ _] _].
  destruct (make_safe_move_in self c Hmove) as [Hin Hout].
  split; [by apply Hsa|done].
Qed.

(** On the row [safe, safe, mine, safe], after the cell (0,0) was revealed
    with the count 0, the safe move is (0,1). *)
Lemma make_safe_move_never_a_mine_witness :
  let g := Minesweeper.Build 1 4 {[ (0, 2) ]} [[false; false; true; false]] ∅ in
  let self0 := MinesweeperAI.init 1 4 in
  let self1 := MinesweeperAI.Build 1 4 {[ (0, 0) ]} ∅ {[ (0, 0); (0, 1) ]}
                 [Sentence.Build ∅ 0] in
  game g [self1; self0] ∧
  fst (MinesweeperAI.make_safe_move self1) = Return (Some (0, 1)) ∧
  Minesweeper.is_mine g (0, 1) = false ∧
  (0, 1) ∉ MinesweeperAI.moves_made self1.
Proof.
  intros g self0 self1.
  assert (game g [self1; self0]) as Hgame.
  { apply (game_reveal g self0 [] (0, 0) 0 1).
    - apply game_start. split; [reflexivity|]. by apply Forall_singleton.
    - split_and!; vm_compute; (reflexivity || lia || set_solver || congruence || idtac).
    - vm_compute; reflexivity. }
  assert (fst (MinesweeperAI.make_safe_move self1) = Return (Some (0, 1))) as Hmove
    by (vm_compute; reflexivity).
  split; [exact Hgame|]. split; [exact Hmove|].
  exact (make_safe_move_never_a_mine g self1 [self0] (0, 1) Hgame Hmove).
Defined.

(** On the row [safe, mine, safe, safe], the game in which (0,0) and (0,2)
    are revealed. *)
Lemma game_knowledge_sound_witness :
  let g := Minesweeper.Build 1 4 {[ (0, 1) ]} [[false; true; false; false]] ∅ in
  let self0 := MinesweeperAI.init 1 4 in
  let self1 := MinesweeperAI.Build 1 4 {[ (0, 0) ]} {[ (0, 1) ]} {[ (0, 0) ]}
                 [Sentence.Build ∅ 0] in
  let self2 := MinesweeperAI.Build 1 4 {[ (0, 0); (0, 2) ]} {[ (0, 1) ]}
                 {[ (0, 0); (0, 2) ]}
                 [Sentence.Build ∅ 0; Sentence.Build {[ (0, 1); (0, 3) ]} 1] in
  game g [self2; self1; self0] ∧
  Forall (λ s, Sentence.count s = mine_count g (Sentence.cells s) ∧
               0 ≤ Sentence.count s ∧
               Sentence.count s ≤ Z.of_nat (size (Sentence.cells s)))
         (MinesweeperAI.knowledge self2).
Proof.
  intros g self0 self1 self2.
  assert (game g [self2; self1; self0]) as Hgame.
  { apply (game_reveal g self1 [self0] (0, 2) 1 1).
    - apply (game_reveal g self0 [] (0, 0) 1 1).
      + apply game_start. split; [reflexivity|]. by apply Forall_singleton.
      + split_and!; vm_compute; (reflexivity || lia || set_solver || congruence || idtac).
      + vm_compute; reflexivity.
    - split_and!; vm_compute; (reflexivity || lia || set_solver || congruence || idtac).
    - vm_compute; reflexivity. }
  split; [exact Hgame|].
  pose proof (game_knowledge_sound g _ Hgame) as Hall.
  apply Forall_cons in Hall as [(_ & _ & _ & Hkn) _]. exact Hkn.
Defined.

Section neighbourhood.
Implicit Types (self : MinesweeperAI.t) (c x : cell).

Lemma length_product {A B} (xs : list A) (ys : list B) :
  length (product xs ys) = (length xs * length ys)%nat.
Proof.
  unfold product. induction xs as [|a xs IH]; [done|].
  csimpl. rewrite length_app, IH. f_equal.
  clear IH. induction ys as [|b ys IH]; [done|]. csimpl. by rewrite IH.
Qed.

Lemma elem_of_range (lo hi k : Z) : k ∈ range lo hi ↔ lo ≤ k ∧ k < hi.
Proof. unfold range. rewrite elem_of_seqZ. lia. Qed.

Lemma length_neighbourhood c :
  length (product (range (c.1 - 1) (c.1 + 2)) (range (c.2 - 1) (c.2 + 2))) = 9%nat.
Proof.
  rewrite length_product. unfold range. rewrite !length_seqZ.
  replace (c.1 + 2 - (c.1 - 1)) with 3 by lia.
  replace (c.2 + 2 - (c.2 - 1)) with 3 by lia. done.
Qed.

Lemma elem_of_neighbourhood c x :
  x ∈ product (range (c.1 - 1) (c.1 + 2)) (range (c.2 - 1) (c.2 + 2)) ↔
  (c.1 - 1 ≤ x.1 ∧ x.1 ≤ c.1 + 1) ∧ (c.2 - 1 ≤ x.2 ∧ x.2 ≤ c.2 + 1).
Proof. destruct x as [i j]. rewrite elem_of_product, !elem_of_range. simpl. lia. Qed.

End neighbourhood.

(** X8. [nearby_mines] never counts more than the eight neighbours: for
    every board and every cell, on the board or not, the count is between 0
    and 8. *)
Theorem nearby_mines_bounds (g : Minesweeper.t) (c : cell) :
  0 ≤ Minesweeper.nearby_mines g c ∧ Minesweeper.nearby_mines g c ≤ 8.
Proof.
  rewrite nearby_mines_length. split; [lia|].
  set (L := product _ _).
  assert (length (filter (counted g c) L) < length L)%nat as Hlt.
  { apply (length_filter_lt _ _ c).
    - apply elem_of_neighbourhood. lia.
    - unfold counted. naive_solver. }
  unfold L in Hlt at 2. rewrite length_neighbourhood in Hlt. lia.
Qed.

(** X9. The cells [add_knowledge] takes as adjacent to a cell are the
    cells of the board, other than the cell itself, at most one row and one
    column away from it; there are at most eight of them. *)
Theorem adjacent_cells_spec (self : MinesweeperAI.t) (c : cell) :
  (∀ x, x ∈ MinesweeperAI.adjacent_cells self c ↔
        x ≠ c ∧
        (c.1 - 1 ≤ x.1 ∧ x.1 ≤ c.1 + 1) ∧ (c.2 - 1 ≤ x.2 ∧ x.2 ≤ c.2 + 1) ∧
        (0 ≤ x.1 ∧ x.1 < MinesweeperAI.height self) ∧
        (0 ≤ x.2 ∧ x.2 < MinesweeperAI.width self)) ∧
  (size (MinesweeperAI.adjacent_cells self c) ≤ 8)%nat.
Proof.
  split.
  - intros x. rewrite elem_of_adjacent_cells, elem_of_neighbourhood. naive_solver.
  - set (L := product (range (c.1 - 1) (c.1 + 2)) (range (c.2 - 1) (c.2 + 2))).
    assert (NoDup L) as HL by (apply NoDup_product; apply NoDup_seqZ).
    assert (MinesweeperAI.adjacent_cells self c ⊆ list_to_set L ∖ {[ c ]}) as Hsub.
    { intros x. rewrite elem_of_adjacent_cells, elem_of_difference,
        elem_of_list_to_set, elem_of_singleton. naive_solver. }
    apply subseteq_size in Hsub.
    rewrite size_difference, size_singleton, size_list_to_set in Hsub by
      (done || (apply singleton_subseteq_l, elem_of_list_to_set,
                  elem_of_neighbourhood; lia)).
    unfold L in Hsub. rewrite length_neighbourhood in Hsub. lia.
Qed.

(** X10. The count the board gives for a cell is the number of mines among
    the cells the knowledge base takes as adjacent to it, when the knowledge
    base has the height and the width of the board. *)
Theorem nearby_mines_counts_adjacent_cells (g : Minesweeper.t)
    (self : MinesweeperAI.t) (c : cell) :
  MinesweeperAI.height self = Minesweeper.height g →
  MinesweeperAI.width self = Minesweeper.width g →
  Minesweeper.nearby_mines g c
  = Z.of_nat (size (filter (λ x, Minesweeper.is_mine g x = true)
                           (MinesweeperAI.adjacent_cells self c))).
Proof. intros Hh Hw. by apply nearby_mines_adjacent_cells. Qed.

(** On the board of two rows [mine, safe] and [safe, mine], the cell (0,1)
    has two mines among its three adjacent cells. *)
Lemma nearby_mines_counts_adjacent_cells_witness :
  let g := Minesweeper.Build 2 2 {[ (0, 0); (1, 1) ]}
             [[true; false]; [false; true]] ∅ in
  let self := MinesweeperAI.init 2 2 in
  Minesweeper.nearby_mines g (0, 1) = 2 ∧
  MinesweeperAI.adjacent_cells self (0, 1) = {[ (0, 0); (1, 0); (1, 1) ]} ∧
  Minesweeper.nearby_mines g (0, 1)
  = Z.of_nat (size (filter (λ x, Minesweeper.is_mine g x = true)
                           (MinesweeperAI.adjacent_cells self (0, 1)))).
Proof.
  intros g self. split; [vm_compute; reflexivity|]. split; [vm_compute; reflexivity|].
  apply (nearby_mines_counts_adjacent_cells g self (0, 1)); reflexivity.
Defined.


Section frame.
Implicit Types (self : MinesweeperAI.t) (s : Sentence.t) (c : cell).
Implicit Types (l kn : list Sentence.t).

Lemma kept_refl kn : kept kn kn.
Proof.
  exists kn, []. split; [by rewrite app_nil_r|].
  by apply Forall_Forall2_diag, Forall_forall.
Qed.

Lemma kept_trans kn1 kn2 kn3 : kept kn1 kn2 → kept kn2 kn3 → kept kn1 kn3.
Proof.
  intros (f1 & b1 & -> & H1) (f2 & b2 & -> & H2).
  apply Forall2_app_inv_l in H2 as (f2a & f2b & Ha & Hb & ->).
  exists f2a, (f2b ++ b2). split; [by rewrite app_assoc|].
  clear Hb. revert f2a Ha. induction H1 as [|s s1 kn1 f1 Hs _ IH]; intros f2a Ha.
  - apply Forall2_nil_inv_l in Ha as ->. constructor.
  - apply Forall2_cons_inv_l in Ha as (s2 & f2' & Hs2 & Hrest & ->).
    constructor; [set_solver|by apply IH].
Qed.

Lemma kept_fmap (f : Sentence.t → Sentence.t) kn :
  (∀ s, Sentence.cells (f s) ⊆ Sentence.cells s) → kept kn (f <$> kn).
Proof.
  intros Hf. exists (f <$> kn), []. split; [by rewrite app_nil_r|].
  apply Forall2_fmap_r, Forall_Forall2_diag, Forall_forall. auto.
Qed.

Lemma kept_app kn new : kept kn (kn ++ new).
Proof.
  exists kn, new. split; [done|]. by apply Forall_Forall2_diag, Forall_forall.
Qed.

Lemma kept_all_cells kn kn' :
  kept kn kn' → length kn' = length kn → all_cells kn' ⊆ all_cells kn.
Proof.
  intros (front & back & -> & HF) Hlen.
  assert (back = []) as ->.
  { apply Forall2_length in HF. rewrite length_app in Hlen.
    apply nil_length_inv. lia. }
  rewrite app_nil_r. intros x. rewrite !elem_of_all_cells.
  intros (s' & Hs' & Hx).
  apply list_elem_of_lookup in Hs' as [i Hi].
  destruct (Forall2_lookup_r _ _ _ _ _ HF Hi) as (s & Hs & Hsub).
  exists s. split; [by eapply list_elem_of_lookup_2|set_solver].
Qed.

(** What a pass of [update_knowledge] leaves as it is. *)
Lemma update_knowledge_frame l self b self' :
  MinesweeperAI.update_knowledge l self = (b, self') →
  MinesweeperAI.height self' = MinesweeperAI.height self ∧
  MinesweeperAI.width self' = MinesweeperAI.width self ∧
  MinesweeperAI.moves_made self' = MinesweeperAI.moves_made self ∧
  length (MinesweeperAI.knowledge self') = length (MinesweeperAI.knowledge self) ∧
  kept (MinesweeperAI.knowledge self) (MinesweeperAI.knowledge self').
Proof.
  rewrite update_knowledge_eq. simpl. case_decide; intros [= <- <-]; simpl.
  - split_and!; try done. apply kept_refl.
  - split_and!; try done; [by rewrite !length_fmap|].
    eapply kept_trans; apply kept_fmap; intros s.
    + rewrite strike_mines_cells. set_solver.
    + rewrite strike_safes_cells. set_solver.
Qed.

Lemma inference_loop_frame fuel self self' :
  MinesweeperAI.inference_loop fuel self = Some self' →
  MinesweeperAI.height self' = MinesweeperAI.height self ∧
  MinesweeperAI.width self' = MinesweeperAI.width self ∧
  MinesweeperAI.moves_made self' = MinesweeperAI.moves_made self ∧
  (length (MinesweeperAI.knowledge self) ≤ length (MinesweeperAI.knowledge self'))%nat ∧
  kept (MinesweeperAI.knowledge self) (MinesweeperAI.knowledge self') ∧
  all_cells (MinesweeperAI.knowledge self') ⊆ all_cells (MinesweeperAI.knowledge self).
Proof.
  revert self. induction fuel as [|fuel IH]; intros self; [done|]. simpl.
  destruct (MinesweeperAI.update_knowledge (MinesweeperAI.knowledge self) self)
    as [b1 self1] eqn:E1.
  apply update_knowledge_frame in E1 as (Hh1 & Hw1 & Hmv1 & Hlen1 & Hk1).
  pose proof (kept_all_cells _ _ Hk1 Hlen1) as Hc1.
  destruct b1; simpl; [|intros [= <-]; split_and!; (done || lia)].
  set (new := MinesweeperAI.new_sentences (MinesweeperAI.knowledge self1)).
  destruct (MinesweeperAI.update_knowledge new _) as [b3 self3] eqn:E3.
  apply update_knowledge_frame in E3 as (Hh3 & Hw3 & Hmv3 & Hlen3 & Hk3).
  pose proof (kept_all_cells _ _ Hk3 Hlen3) as Hc3.
  simpl in Hh3, Hw3, Hmv3, Hlen3, Hk3, Hc3. unfold new in Hc3.
  rewrite all_cells_new_sentences in Hc3. rewrite length_app in Hlen3.
  assert (kept (MinesweeperAI.knowledge self) (MinesweeperAI.knowledge self3)) as Hk.
  { eapply kept_trans; [exact Hk1|]. eapply kept_trans; [apply kept_app|exact Hk3]. }
  destruct b3; simpl.
  - intros (Hh & Hw & Hmv & Hlen & Hkept & Hcells)%IH.
    split_and!; [congruence|congruence|congruence|lia|by eapply kept_trans|set_solver].
  - intros [= <-]. split_and!; [congruence|congruence|congruence|lia|done|set_solver].
Qed.

Lemma add_knowledge_frame fuel c count self self' :
  MinesweeperAI.add_knowledge fuel c count self = Some self' →
  MinesweeperAI.height self' = MinesweeperAI.height self ∧
  MinesweeperAI.width self' = MinesweeperAI.width self ∧
  MinesweeperAI.moves_made self' = {[ c ]} ∪ MinesweeperAI.moves_made self ∧
  (length (MinesweeperAI.knowledge self) < length (MinesweeperAI.knowledge self'))%nat ∧
  kept (MinesweeperAI.knowledge self) (MinesweeperAI.knowledge self') ∧
  all_cells (MinesweeperAI.knowledge self')
    ⊆ all_cells (MinesweeperAI.knowledge self) ∖ {[ c ]}
      ∪ MinesweeperAI.adjacent_cells self c ∖ ({[ c ]} ∪ MinesweeperAI.moves_made self).
Proof.
  unfold MinesweeperAI.add_knowledge.
  intros (Hh & Hw & Hmv & Hlen & Hkept & Hcells)%inference_loop_frame.
  simpl in *. rewrite length_app, length_fmap in Hlen. simpl in Hlen.
  split_and!; [done|done|done|lia| |].
  - eapply kept_trans; [|exact Hkept].
    eapply kept_trans; [|apply kept_app].
    apply kept_fmap. intros s. rewrite sentence_mark_safe_cells. set_solver.
  - intros x Hx%Hcells. apply elem_of_all_cells in Hx as (s & Hs & Hx).
    apply elem_of_app in Hs as [Hs|Hs].
    + apply list_elem_of_fmap in Hs as (s0 & -> & Hs0).
      rewrite sentence_mark_safe_cells in Hx.
      assert (x ∈ all_cells (MinesweeperAI.knowledge self))
        by (apply elem_of_all_cells; exists s0; set_solver).
      set_solver.
    + apply list_elem_of_singleton in Hs as ->. simpl in Hx.
      unfold MinesweeperAI.adjacent_cells in *. set_solver.
Qed.

End frame.

(** X12. What a call of [add_knowledge] does to the revealed cell: the
    height and the width stay, the cell, and nothing else, is added to
    [moves_made], it is in [safes], and no sentence of the knowledge
    contains it. *)
Theorem add_knowledge_revealed_cell (fuel : nat) (c : cell) (count : Z)
    (self self' : MinesweeperAI.t) :
  MinesweeperAI.add_knowledge fuel c count self = Some self' →
  MinesweeperAI.height self' = MinesweeperAI.height self ∧
  MinesweeperAI.width self' = MinesweeperAI.width self ∧
  MinesweeperAI.moves_made self' = {[ c ]} ∪ MinesweeperAI.moves_made self ∧
  c ∈ MinesweeperAI.safes self' ∧
  c ∉ all_cells (MinesweeperAI.knowledge self').
Proof.
  intros Hrun.
  destruct (add_knowledge_frame _ _ _ _ _ Hrun) as (Hh & Hw & Hmv & _ & _ & Hcells).
  split_and!; [done|done|done| |].
  - unfold MinesweeperAI.add_knowledge in Hrun.
    apply inference_loop_grows in Hrun as [_ Hs]. simpl in Hs. set_solver.
  - intros Hc%Hcells. set_solver.
Qed.

(** X13. Two invariants of the knowledge base that every call of
    [add_knowledge] keeps, whatever the cell and the count: every revealed
    cell is in [safes], and no sentence contains a revealed cell. *)
Theorem add_knowledge_keeps_invariants (fuel : nat) (c : cell) (count : Z)
    (self self' : MinesweeperAI.t) :
  MinesweeperAI.add_knowledge fuel c count self = Some self' →
  (MinesweeperAI.moves_made self ⊆ MinesweeperAI.safes self →
   MinesweeperAI.moves_made self' ⊆ MinesweeperAI.safes self') ∧
  (all_cells (MinesweeperAI.knowledge self) ## MinesweeperAI.moves_made self →
   all_cells (MinesweeperAI.knowledge self') ## MinesweeperAI.moves_made self').
Proof.
  intros Hrun.
  destruct (add_knowledge_frame _ _ _ _ _ Hrun) as (_ & _ & Hmv & _ & _ & Hcells).
  destruct (add_knowledge_grows _ _ _ _ _ Hrun) as [_ Hsafes].
  split.
  - intros Hinv. rewrite Hmv.
    unfold MinesweeperAI.add_knowledge in Hrun.
    apply inference_loop_grows in Hrun as [_ Hs]. simpl in Hs. set_solver.
  - intros Hinv. rewrite Hmv. set_solver.
Qed.

(** X14. The knowledge is append-only: after a call of [add_knowledge]
    every sentence there was is still there, at its place, with no cells
    but cells it had, and at least one sentence follows them. *)
Theorem add_knowledge_append_only (fuel : nat) (c : cell) (count : Z)
    (self self' : MinesweeperAI.t) :
  MinesweeperAI.add_knowledge fuel c count self = Some self' →
  ∃ front back,
    MinesweeperAI.knowledge self' = front ++ back ∧
    back ≠ [] ∧
    Forall2 (λ s s', Sentence.cells s' ⊆ Sentence.cells s)
            (MinesweeperAI.knowledge self) front.
Proof.
  intros Hrun.
  destruct (add_knowledge_frame _ _ _ _ _ Hrun)
    as (_ & _ & _ & Hlen & (front & back & Heq & HF) & _).
  exists front, back. split_and!; [done| |done].
  intros ->. apply Forall2_length in HF.
  rewrite Heq, app_nil_r in Hlen. lia.
Qed.

Section board_bound.
Implicit Types (self : MinesweeperAI.t) (c : cell).

Lemma all_cells_size_on_board self :
  on_board self →
  (size (all_cells (MinesweeperAI.knowledge self))
   ≤ Z.to_nat (MinesweeperAI.height self) * Z.to_nat (MinesweeperAI.width self))%nat.
Proof.
  intros Hon.
  set (L := product (range 0 (MinesweeperAI.height self))
                    (range 0 (MinesweeperAI.width self))).
  assert (NoDup L) as HL by (apply NoDup_product; apply NoDup_seqZ).
  assert (all_cells (MinesweeperAI.knowledge self) ⊆ list_to_set L) as Hsub.
  { intros [i j] Hx%Hon. apply elem_of_list_to_set, elem_of_product.
    rewrite !elem_of_range. simpl in Hx. lia. }
  apply subseteq_size in Hsub.
  rewrite size_list_to_set in Hsub by done.
  unfold L in Hsub. rewrite length_product in Hsub.
  unfold range in Hsub. rewrite !length_seqZ, !Z.sub_0_r in Hsub. done.
Qed.

End board_bound.

(** X15. On a knowledge base whose sentences are over cells of its board,
    [add_knowledge] returns within height times width plus one rounds of
    its loop, and the sentences of the state it returns are over cells of
    the board again. *)
Theorem add_knowledge_terminates_on_board (c : cell) (count : Z)
    (self : MinesweeperAI.t) :
  on_board self →
  ∃ self',
    MinesweeperAI.add_knowledge
      (S (Z.to_nat (MinesweeperAI.height self) * Z.to_nat (MinesweeperAI.width self)))
      c count self = Some self' ∧
    on_board self'.
Proof.
  intros Hon.
  set (start := MinesweeperAI.add_sentence c count self).
  assert (on_board start) as Hstart.
  { intros x (s & Hs & Hx)%elem_of_all_cells. simpl in *.
    apply elem_of_app in Hs as [Hs|Hs].
    - apply list_elem_of_fmap in Hs as (s0 & -> & Hs0).
      rewrite sentence_mark_safe_cells in Hx.
      apply Hon, elem_of_all_cells. exists s0. set_solver.
    - apply list_elem_of_singleton in Hs as ->. simpl in Hx.
      apply elem_of_difference in Hx as [Hx _].
      apply elem_of_adjacent_cells in Hx. simpl in Hx. naive_solver. }
  pose proof (all_cells_size_on_board start Hstart) as Hsize. simpl in Hsize.
  destruct (inference_loop_terminates
    (S (Z.to_nat (MinesweeperAI.height self) * Z.to_nat (MinesweeperAI.width self)))
    start) as [self' Hrun]; [simpl; lia|].
  exists self'. split; [exact Hrun|].
  apply inference_loop_frame in Hrun as (Hh & Hw & _ & _ & _ & Hcells).
  intros x Hx%Hcells%Hstart. rewrite Hh, Hw. done.
Qed.

Section marks_origin.
Implicit Types (self : MinesweeperAI.t) (c : cell) (l : list Sentence.t).

Lemma update_knowledge_marks l self b self' :
  MinesweeperAI.update_knowledge l self = (b, self') →
  MinesweeperAI.mines self' ⊆ MinesweeperAI.mines self ∪ all_cells l ∧
  MinesweeperAI.safes self' ⊆ MinesweeperAI.safes self ∪ all_cells l.
Proof.
  rewrite update_knowledge_eq. simpl.
  pose proof (accumulate_subseteq l) as Hacc.
  case_decide; intros [= <- <-]; simpl; [set_solver|].
  split; intros x [Hx|Hx]%elem_of_union; set_solver.
Qed.

Lemma inference_loop_marks fuel self self' :
  MinesweeperAI.inference_loop fuel self = Some self' →
  MinesweeperAI.mines self'
    ⊆ MinesweeperAI.mines self ∪ all_cells (MinesweeperAI.knowledge self) ∧
  MinesweeperAI.safes self'
    ⊆ MinesweeperAI.safes self ∪ all_cells (MinesweeperAI.knowledge self).
Proof.
  revert self. induction fuel as [|fuel IH]; intros self; [done|]. simpl.
  destruct (MinesweeperAI.update_knowledge (MinesweeperAI.knowledge self) self)
    as [b1 self1] eqn:E1.
  pose proof (update_knowledge_marks _ _ _ _ E1) as [Hm1 Hs1].
  apply update_knowledge_frame in E1 as (_ & _ & _ & Hlen1 & Hk1).
  pose proof (kept_all_cells _ _ Hk1 Hlen1) as Hc1.
  destruct b1; simpl; [|by intros [= <-]].
  set (new := MinesweeperAI.new_sentences (MinesweeperAI.knowledge self1)).
  destruct (MinesweeperAI.update_knowledge new _) as [b3 self3] eqn:E3.
  pose proof (update_knowledge_marks _ _ _ _ E3) as [Hm3 Hs3].
  apply update_knowledge_frame in E3 as (_ & _ & _ & Hlen3 & Hk3).
  pose proof (kept_all_cells _ _ Hk3 Hlen3) as Hc3.
  simpl in Hm3, Hs3, Hc3.
  assert (all_cells new ⊆ all_cells (MinesweeperAI.knowledge self1)) as Hnew.
  { rewrite <- (all_cells_new_sentences (MinesweeperAI.knowledge self1)).
    intros x (s & Hs & Hx)%elem_of_all_cells. apply elem_of_all_cells.
    exists s. split; [|done]. apply elem_of_app. by right. }
  unfold new in Hc3. rewrite all_cells_new_sentences in Hc3.
  destruct b3; simpl.
  - intros [Hm Hs]%IH. split; set_solver.
  - intros [= <-]. split; set_solver.
Qed.

Lemma add_sentence_all_cells c count self :
  all_cells (MinesweeperAI.knowledge (MinesweeperAI.add_sentence c count self))
  ⊆ (all_cells (MinesweeperAI.knowledge self)
     ∪ MinesweeperAI.adjacent_cells self c ∖ MinesweeperAI.moves_made self) ∖ {[ c ]}.
Proof.
  intros x (s & Hin & Hx)%elem_of_all_cells. simpl in Hin.
  apply elem_of_app in Hin as [Hin|Hin].
  - apply list_elem_of_fmap in Hin as (s0 & -> & Hs0).
    rewrite sentence_mark_safe_cells in Hx.
    assert (x ∈ all_cells (MinesweeperAI.knowledge self))
      by (apply elem_of_all_cells; exists s0; set_solver).
    set_solver.
  - apply list_elem_of_singleton in Hin as ->. simpl in Hx.
    unfold MinesweeperAI.adjacent_cells in *. simpl in Hx. set_solver.
Qed.

End marks_origin.

(** X16. A call of [add_knowledge] concludes only about cells of its
    sentences: a cell it adds to [mines] was in an earlier sentence or is
    an unrevealed cell adjacent to the revealed one, and likewise for
    [safes], to which the revealed cell is added too.  The revealed cell
    itself is never added to [mines]. *)
Theorem add_knowledge_marks_only_sentence_cells (fuel : nat) (c : cell) (count : Z)
    (self self' : MinesweeperAI.t) :
  MinesweeperAI.add_knowledge fuel c count self = Some self' →
  MinesweeperAI.mines self'
    ⊆ MinesweeperAI.mines self
      ∪ (all_cells (MinesweeperAI.knowledge self)
         ∪ MinesweeperAI.adjacent_cells self c ∖ MinesweeperAI.moves_made self) ∖ {[ c ]} ∧
  MinesweeperAI.safes self'
    ⊆ MinesweeperAI.safes self ∪ {[ c ]}
      ∪ (all_cells (MinesweeperAI.knowledge self)
         ∪ MinesweeperAI.adjacent_cells self c ∖ MinesweeperAI.moves_made self) ∖ {[ c ]}.
Proof.
  unfold MinesweeperAI.add_knowledge. intros [Hm Hs]%inference_loop_marks.
  pose proof (add_sentence_all_cells c count self) as Hstart.
  change (MinesweeperAI.mines (MinesweeperAI.add_sentence c count self))
    with (MinesweeperAI.mines self) in Hm.
  change (MinesweeperAI.safes (MinesweeperAI.add_sentence c count self))
    with ({[ c ]} ∪ MinesweeperAI.safes self) in Hs.
  split; set_solver.
Qed.

(** On a board of one row of four cells, after (0,0) was revealed with
    the count 1, the call [add_knowledge((0,2), 1)]. *)
Lemma add_knowledge_revealed_cell_witness :
  let self := MinesweeperAI.Build 1 4 {[ (0, 0) ]} {[ (0, 1) ]} {[ (0, 0) ]}
                [Sentence.Build ∅ 0] in
  let self' := MinesweeperAI.Build 1 4 {[ (0, 0); (0, 2) ]} {[ (0, 1) ]}
                 {[ (0, 0); (0, 2) ]}
                 [Sentence.Build ∅ 0; Sentence.Build {[ (0, 1); (0, 3) ]} 1] in
  MinesweeperAI.add_knowledge 1 (0, 2) 1 self = Some self' ∧
  MinesweeperAI.moves_made self' = {[ (0, 2) ]} ∪ MinesweeperAI.moves_made self ∧
  (0, 2) ∈ MinesweeperAI.safes self' ∧
  (0, 2) ∉ all_cells (MinesweeperAI.knowledge self').
Proof.
  intros self self'.
  assert (MinesweeperAI.add_knowledge 1 (0, 2) 1 self = Some self') as Hrun
    by (vm_compute; reflexivity).
  split; [exact Hrun|].
  destruct (add_knowledge_revealed_cell 1 (0, 2) 1 self self' Hrun)
    as (_ & _ & Hmv & Hs & Hk).
  done.
Defined.

Lemma add_knowledge_keeps_invariants_witness :
  let self := MinesweeperAI.Build 1 4 {[ (0, 0) ]} {[ (0, 1) ]} {[ (0, 0) ]}
                [Sentence.Build ∅ 0] in
  let self' := MinesweeperAI.Build 1 4 {[ (0, 0); (0, 2) ]} {[ (0, 1) ]}
                 {[ (0, 0); (0, 2) ]}
                 [Sentence.Build ∅ 0; Sentence.Build {[ (0, 1); (0, 3) ]} 1] in
  MinesweeperAI.add_knowledge 1 (0, 2) 1 self = Some self' ∧
  (MinesweeperAI.moves_made self ⊆ MinesweeperAI.safes self →
   MinesweeperAI.moves_made self' ⊆ MinesweeperAI.safes self') ∧
  (all_cells (MinesweeperAI.knowledge self) ## MinesweeperAI.moves_made self →
   all_cells (MinesweeperAI.knowledge self') ## MinesweeperAI.moves_made self').
Proof.
  intros self self'.
  assert (MinesweeperAI.add_knowledge 1 (0, 2) 1 self = Some self') as Hrun
    by (vm_compute; reflexivity).
  split; [exact Hrun|].
  exact (add_knowledge_keeps_invariants 1 (0, 2) 1 self self' Hrun).
Defined.

Lemma add_knowledge_append_only_witness :
  let self := MinesweeperAI.Build 1 4 {[ (0, 0) ]} {[ (0, 1) ]} {[ (0, 0) ]}
                [Sentence.Build ∅ 0] in
  let self' := MinesweeperAI.Build 1 4 {[ (0, 0); (0, 2) ]} {[ (0, 1) ]}
                 {[ (0, 0); (0, 2) ]}
                 [Sentence.Build ∅ 0; Sentence.Build {[ (0, 1); (0, 3) ]} 1] in
  MinesweeperAI.add_knowledge 1 (0, 2) 1 self = Some self' ∧
  ∃ front back,
    MinesweeperAI.knowledge self' = front ++ back ∧
    back ≠ [] ∧
    Forall2 (λ s s', Sentence.cells s' ⊆ Sentence.cells s)
            (MinesweeperAI.knowledge self) front.
Proof.
  intros self self'.
  assert (MinesweeperAI.add_knowledge 1 (0, 2) 1 self = Some self') as Hrun
    by (vm_compute; reflexivity).
  split; [exact Hrun|].
  exact (add_knowledge_append_only 1 (0, 2) 1 self self' Hrun).
Defined.

Lemma add_knowledge_marks_only_sentence_cells_witness :
  let self := MinesweeperAI.init 1 4 in
  let self' := MinesweeperAI.Build 1 4 {[ (0, 0) ]} {[ (0, 1) ]} {[ (0, 0) ]}
                 [Sentence.Build ∅ 0] in
  MinesweeperAI.add_knowledge 1 (0, 0) 1 self = Some self' ∧
  MinesweeperAI.adjacent_cells self (0, 0) = {[ (0, 1) ]} ∧
  MinesweeperAI.mines self'
    ⊆ MinesweeperAI.mines self
      ∪ (all_cells (MinesweeperAI.knowledge self)
         ∪ MinesweeperAI.adjacent_cells self (0, 0) ∖ MinesweeperAI.moves_made self)
        ∖ {[ (0, 0) ]}.
Proof.
  intros self self'.
  assert (MinesweeperAI.add_knowledge 1 (0, 0) 1 self = Some self') as Hrun
    by (vm_compute; reflexivity).
  split; [exact Hrun|]. split; [vm_compute; reflexivity|].
  exact (proj1 (add_knowledge_marks_only_sentence_cells 1 (0, 0) 1 self self' Hrun)).
Defined.

(** The knowledge base of the board of one row of four cells that holds
    the sentences ({}, 0) and ({(0,1),(0,3)}, 1), at the call
    [add_knowledge((0,3), 0)]. *)
Lemma add_knowledge_terminates_on_board_witness :
  let self := MinesweeperAI.Build 1 4 {[ (0, 0); (0, 2) ]} {[ (0, 1) ]}
                {[ (0, 0); (0, 2) ]}
                [Sentence.Build ∅ 0; Sentence.Build {[ (0, 1); (0, 3) ]} 1] in
  on_board self ∧
  ∃ self', MinesweeperAI.add_knowledge 5 (0, 3) 0 self = Some self' ∧ on_board self'.
Proof.
  intros self.
  assert (on_board self) as Hon.
  { intros x Hx.
    assert (all_cells (MinesweeperAI.knowledge self) = {[ (0, 1); (0, 3) ]}) as Heq
      by (vm_compute; reflexivity).
    rewrite Heq in Hx.
    apply elem_of_union in Hx as [->%elem_of_singleton| ->%elem_of_singleton];
      simpl; lia. }
  split; [exact Hon|].
  exact (add_knowledge_terminates_on_board (0, 3) 0 self Hon).
Defined.

Section constructor.
Implicit Types (placed : gset cell) (board : list (list bool)).
Implicit Types (height width mines i j : Z) (draws : list (nat * nat)).

Lemma randrange_Return r n i :
  randrange r n = Return i → 0 ≤ i ∧ i < n.
Proof.
  unfold randrange. case_decide; [|done]. intros [= <-].
  by apply Z.mod_pos_bound.
Qed.

Lemma randrange_Raise r n e :
  randrange r n = Raise e → e = ValueError ∧ n ≤ 0.
Proof. unfold randrange. case_decide; [done|]. intros [= <-]. split; [done|lia]. Qed.

Lemma get_empty_board height width i j :
  Minesweeper.get (Minesweeper.empty_board height width) i j = false.
Proof.
  unfold Minesweeper.get, Minesweeper.empty_board.
  rewrite list_lookup_fmap.
  destruct (range 0 height !! Z.to_nat i); simpl; [|done].
  rewrite list_lookup_fmap. by destruct (range 0 width !! Z.to_nat j).
Qed.

Lemma placed_on_empty height width :
  placed_on height width ∅ (Minesweeper.empty_board height width).
Proof.
  split.
  - unfold Minesweeper.empty_board.
    rewrite length_fmap. unfold range. by rewrite length_seqZ, Z.sub_0_r.
  - unfold Minesweeper.empty_board.
    apply Forall_fmap, Forall_forall. intros x _. simpl.
    rewrite length_fmap. unfold range. by rewrite length_seqZ, Z.sub_0_r.
  - intros i j _ _. rewrite get_empty_board. set_solver.
  - set_solver.
Qed.

Lemma get_set_true board height width i j i' j' :
  length board = Z.to_nat height →
  Forall (λ row, length row = Z.to_nat width) board →
  (0 ≤ i ∧ i < height) → (0 ≤ j ∧ j < width) → 0 ≤ i' → 0 ≤ j' →
  Minesweeper.get (Minesweeper.set_true board i j) i' j'
  = if decide (i' = i ∧ j' = j) then true else Minesweeper.get board i' j'.
Proof.
  intros Hrows Hcols Hi Hj Hi' Hj'.
  unfold Minesweeper.get, Minesweeper.set_true.
  destruct (decide (i' = i)) as [->|Hne].
  - rewrite list_lookup_alter_eq.
    destruct (board !! Z.to_nat i) as [row|] eqn:Hrow; simpl.
    + assert (length row = Z.to_nat width) as Hlen.
      { rewrite Forall_lookup in Hcols. by eapply Hcols. }
      destruct (decide (j' = j)) as [->|Hnej].
      * rewrite decide_True by done.
        rewrite list_lookup_insert_eq by lia. done.
      * rewrite decide_False by naive_solver.
        rewrite list_lookup_insert_ne by lia. done.
    + apply lookup_ge_None in Hrow. lia.
  - rewrite decide_False by naive_solver.
    rewrite list_lookup_alter_ne by lia. done.
Qed.

Lemma placed_on_set_true height width placed board i j :
  placed_on height width placed board →
  (0 ≤ i ∧ i < height) → (0 ≤ j ∧ j < width) →
  placed_on height width ({[ (i, j) ]} ∪ placed) (Minesweeper.set_true board i j).
Proof.
  intros [Hrows Hcols Hent Hcells] Hi Hj. split.
  - unfold Minesweeper.set_true. by rewrite length_alter.
  - unfold Minesweeper.set_true. apply Forall_alter; [done|].
    intros row _ Hrow. by rewrite length_insert.
  - intros i' j' Hi' Hj'.
    rewrite (get_set_true board height width) by (done || lia).
    rewrite elem_of_union, elem_of_singleton, <- Hent by done.
    case_decide; naive_solver.
  - intros c [->%elem_of_singleton|Hc]%elem_of_union; [done|by apply Hcells].
Qed.

(** The loop keeps the invariant, whatever it ends with. *)
Lemma add_mines_placed_on draws height width mines placed board placed' board' :
  placed_on height width placed board →
  Minesweeper.add_mines draws height width mines placed board
    = Some (Return (placed', board')) →
  placed_on height width placed' board' ∧ Z.of_nat (size placed') = mines.
Proof.
  revert placed board.
  induction draws as [|[r1 r2] draws IH]; intros placed board Hinv; simpl.
  - case_decide; [|done]. by intros [= <- <-].
  - case_decide; [by intros [= <- <-]|].
    destruct (randrange r1 height) as [i|e] eqn:Ei; [|done].
    destruct (randrange r2 width) as [j|e] eqn:Ej; [|done].
    apply randrange_Return in Ei, Ej.
    destruct (Minesweeper.get board i j); [by apply IH|].
    apply IH. by apply placed_on_set_true.
Qed.

Lemma placed_on_size height width placed board :
  placed_on height width placed board →
  (size placed ≤ Z.to_nat height * Z.to_nat width)%nat.
Proof.
  intros [_ _ _ Hcells].
  set (L := product (range 0 height) (range 0 width)).
  assert (NoDup L) as HL by (apply NoDup_product; apply NoDup_seqZ).
  assert (placed ⊆ list_to_set L) as Hsub.
  { intros [i j] Hx%Hcells. apply elem_of_list_to_set, elem_of_product.
    rewrite !elem_of_range. simpl in Hx. lia. }
  apply subseteq_size in Hsub.
  rewrite size_list_to_set in Hsub by done.
  unfold L in Hsub. rewrite length_product in Hsub.
  unfold range in Hsub. rewrite !length_seqZ, !Z.sub_0_r in Hsub. done.
Qed.

(** With a number of mines that the board cannot hold the loop never
    ends. *)
Lemma add_mines_never_returns draws height width mines placed board r :
  placed_on height width placed board →
  mines < 0 ∨ Z.of_nat (Z.to_nat height * Z.to_nat width) < mines →
  Minesweeper.add_mines draws height width mines placed board = Some r →
  r = Raise ValueError.
Proof.
  intros Hinv Hmines. revert placed board Hinv.
  induction draws as [|[r1 r2] draws IH]; intros placed board Hinv; simpl.
  - pose proof (placed_on_size _ _ _ _ Hinv). case_decide; [lia|done].
  - pose proof (placed_on_size _ _ _ _ Hinv). case_decide; [lia|].
    destruct (randrange r1 height) as [i|e] eqn:Ei;
      [|apply randrange_Raise in Ei as [-> _]; by intros [= <-]].
    destruct (randrange r2 width) as [j|e] eqn:Ej;
      [|apply randrange_Raise in Ej as [-> _]; by intros [= <-]].
    apply randrange_Return in Ei, Ej.
    destruct (Minesweeper.get board i j); [by apply IH|].
    apply IH. by apply placed_on_set_true.
Qed.

Lemma add_mines_done draws height width mines placed board :
  Z.of_nat (size placed) = mines →
  Minesweeper.add_mines draws height width mines placed board
  = Some (Return (placed, board)).
Proof. intros Hsize. destruct draws as [|[r1 r2] draws]; simpl; by rewrite decide_True. Qed.

Lemma add_mines_empty_range r1 r2 draws height width mines placed board :
  Z.of_nat (size placed) ≠ mines → height ≤ 0 ∨ width ≤ 0 →
  Minesweeper.add_mines ((r1, r2) :: draws) height width mines placed board
  = Some (Raise ValueError).
Proof.
  intros Hsize Hdim. simpl. rewrite decide_False by done.
  unfold randrange.
  destruct (decide (0 < height)); [|done].
  destruct (decide (0 < width)); [lia|done].
Qed.

End constructor.

(** X17. When [Minesweeper.__init__] returns, the board has the height
    and the width asked for, as many rows as the height and as many entries
    in every row as the width, exactly [mines] mines, all of them cells of
    the board; a cell of the board is a mine for [is_mine] exactly when it
    is in the set [mines]; and no mine is found yet. *)
Theorem init_returns_board (draws : list (nat * nat)) (height width mines : Z)
    (g : Minesweeper.t) :
  Minesweeper.init draws height width mines = Some (Return g) →
  Minesweeper.height g = height ∧
  Minesweeper.width g = width ∧
  Minesweeper.mines_found g = ∅ ∧
  Z.of_nat (size (Minesweeper.mines g)) = mines ∧
  length (Minesweeper.board g) = Z.to_nat height ∧
  Forall (λ row, length row = Z.to_nat width) (Minesweeper.board g) ∧
  (∀ c, (0 ≤ c.1 ∧ c.1 < height) → (0 ≤ c.2 ∧ c.2 < width) →
        Minesweeper.is_mine g c = true ↔ c ∈ Minesweeper.mines g) ∧
  (∀ c, c ∈ Minesweeper.mines g →
        (0 ≤ c.1 ∧ c.1 < height) ∧ (0 ≤ c.2 ∧ c.2 < width)) ∧
  (0 ≤ height → 0 ≤ width → well_formed g).
Proof.
  unfold Minesweeper.init.
  destruct (Minesweeper.add_mines _ _ _ _ _ _) as [[[placed board]|e]|] eqn:E;
    [|done|done].
  intros [= <-]. simpl.
  apply add_mines_placed_on in E as [[Hrows Hcols Hent Hcells] Hsize];
    [|apply placed_on_empty].
  split_and!; try done.
  - intros [i j] Hi Hj. by apply Hent.
  - intros Hh Hw. split; simpl; [lia|].
    eapply Forall_impl; [exact Hcols|]. intros row Hrow. simpl in Hrow. lia.
Qed.

(** A board of 2 rows and 3 columns with 2 mines; the second pair of
    draws falls on the cell of the first and places nothing. *)
Lemma init_returns_board_witness :
  let g := Minesweeper.Build 2 3 {[ (1, 1); (0, 2) ]}
             [[false; false; true]; [false; true; false]] ∅ in
  Minesweeper.init [(5, 7); (5, 7); (2, 2)]%nat 2 3 2 = Some (Return g) ∧
  Z.of_nat (size (Minesweeper.mines g)) = 2 ∧
  well_formed g.
Proof.
  intros g.
  assert (Minesweeper.init [(5, 7); (5, 7); (2, 2)]%nat 2 3 2 = Some (Return g))
    as Hinit by (vm_compute; reflexivity).
  split; [exact Hinit|].
  destruct (init_returns_board _ _ _ _ _ Hinit)
    as (_ & _ & _ & Hsize & _ & _ & _ & _ & Hwf).
  split; [exact Hsize|]. apply Hwf; lia.
Defined.

(** X18. [Minesweeper.__init__] never returns a board when the number of
    mines asked for is negative or more than height times width: whatever
    the generator draws, the loop goes on, or stops on the [ValueError] of
    an empty range. *)
Theorem init_too_many_mines (draws : list (nat * nat)) (height width mines : Z) :
  mines < 0 ∨ Z.of_nat (Z.to_nat height * Z.to_nat width) < mines →
  Minesweeper.init draws height width mines = None ∨
  Minesweeper.init draws height width mines = Some (Raise ValueError).
Proof.
  intros Hmines. unfold Minesweeper.init.
  destruct (Minesweeper.add_mines _ _ _ _ _ _) as [r|] eqn:E; [|by left].
  apply add_mines_never_returns in E as ->; [by right|apply placed_on_empty|done].
Qed.

(** Five mines asked for on a board of 2 by 2 cells: after every cell was
    drawn, the loop is still running. *)
Lemma init_too_many_mines_witness :
  Minesweeper.init [(0, 0); (0, 1); (1, 0); (1, 1); (0, 0)]%nat 2 2 5 = None.
Proof.
  destruct (init_too_many_mines [(0, 0); (0, 1); (1, 0); (1, 1); (0, 0)]%nat 2 2 5)
    as [H|H]; [right; reflexivity|exact H|discriminate H].
Defined.

(** X19. The edges of [Minesweeper.__init__]: with 0 mines asked for it
    returns the empty field without a draw, whatever the height and the
    width; with another number of mines and a height or a width that is not
    positive, the first round raises [ValueError]. *)
Theorem init_edges (draws : list (nat * nat)) (height width mines : Z) :
  Minesweeper.init draws height width 0
    = Some (Return (Minesweeper.Build height width ∅
                      (Minesweeper.empty_board height width) ∅)) ∧
  (∀ d, height ≤ 0 ∨ width ≤ 0 → mines ≠ 0 →
        Minesweeper.init (d :: draws) height width mines
          = Some (Raise ValueError)).
Proof.
  split.
  - unfold Minesweeper.init.
    by rewrite add_mines_done by (by rewrite size_empty).
  - intros [r1 r2] Hdim Hmines. unfold Minesweeper.init.
    rewrite add_mines_empty_range; [done| |done].
    rewrite size_empty. simpl. lia.
Qed.
